(** * CreditMind scoring pipeline: a shallow embedding of lib/scoring

    The TypeScript scoring engine (ocean.ts, pd.ts, blending.ts, loan.ts,
    behavioral.ts and the constant tables of lib/constants/index.ts) is
    transcribed function by function.  In ocean.ts, pd.ts, blending.ts and
    loan.ts a JavaScript [number] is modelled as an exact rational ([Q]);
    equalities between computed numbers are therefore stated with [==]
    ([Qeq]).  In behavioral.ts and profiles.ts, where a sum, a difference or
    a square of finite inputs can overflow, a number is a [jsnum]: a finite
    rational, [Infinity], [-Infinity] or [NaN], with the arithmetic of
    IEEE 754 on the special values and a finite result that passes the
    overflow threshold turned into an infinity.  Rounding is outside this
    model. *)

From Stdlib Require Import String.
From Stdlib Require Import QArith Qminmax Qabs Lqa List Bool Lia Permutation.
Import ListNotations.
Open Scope Q_scope.

(* ================================================================== *)
(** * JavaScript number primitives                                     *)
(* ================================================================== *)

(** [a < b], [a > b] and [a >= b] on numbers, as booleans. *)
Definition Qltb (a b : Q) : bool := negb (Qle_bool b a).
Definition Qgtb (a b : Q) : bool := Qltb b a.
Definition Qgeb (a b : Q) : bool := Qle_bool b a.

(** [Math.min], [Math.max], [Math.abs] on finite numbers. *)
Definition Math_min (a b : Q) : Q := Qmin a b.
Definition Math_max (a b : Q) : Q := Qmax a b.
Definition Math_abs (a : Q) : Q := Qabs a.

(** [xs.reduce((s, v) => s + v, 0)]. *)
Definition sum (xs : list Q) : Q := fold_left (fun s v => s + v) xs 0.

(** [xs.length] as a number. *)
Definition len {X : Type} (xs : list X) : Q := inject_Z (Z.of_nat (List.length xs)).


(** ** Numbers that can overflow

    behavioral.ts and profiles.ts are about results that stop being finite,
    so their numbers are the finite rationals together with the three
    special values of a double.  Arithmetic on finite operands is exact,
    but a result at or beyond the overflow threshold of binary64 becomes an
    infinity; the special values then combine as IEEE 754 prescribes
    ([Infinity - Infinity], [Infinity / Infinity], [0 * Infinity] and
    [0 / 0] are [NaN]; a comparison with [NaN] is false; [Math.min] and
    [Math.max] return [NaN] on a [NaN] argument).  Rounding, underflow and
    the sign of zero are not modelled. *)
Inductive jsnum : Set := Finite (q : Q) | PosInfinity | NegInfinity | NaN.

Definition OVERFLOW : Q := inject_Z (2 ^ 1024 - 2 ^ 970).

(** The double for an exact result [q]. *)
Definition fin (q : Q) : jsnum :=
  if Qle_bool OVERFLOW q then PosInfinity
  else if Qle_bool q (- OVERFLOW) then NegInfinity
  else Finite q.

Definition infinityOfSign (positive : bool) : jsnum :=
  if positive then PosInfinity else NegInfinity.

Definition jneg (a : jsnum) : jsnum :=
  match a with
  | Finite x => Finite (- x)
  | PosInfinity => NegInfinity
  | NegInfinity => PosInfinity
  | NaN => NaN
  end.

Definition jadd (a b : jsnum) : jsnum :=
  match a, b with
  | NaN, _ | _, NaN => NaN
  | Finite x, Finite y => fin (x + y)
  | PosInfinity, NegInfinity | NegInfinity, PosInfinity => NaN
  | PosInfinity, _ | _, PosInfinity => PosInfinity
  | NegInfinity, _ | _, NegInfinity => NegInfinity
  end.

Definition jsub (a b : jsnum) : jsnum := jadd a (jneg b).

Definition jmul (a b : jsnum) : jsnum :=
  match a, b with
  | NaN, _ | _, NaN => NaN
  | Finite x, Finite y => fin (x * y)
  | Finite x, PosInfinity | PosInfinity, Finite x =>
      if Qeq_bool x 0 then NaN else infinityOfSign (Qltb 0 x)
  | Finite x, NegInfinity | NegInfinity, Finite x =>
      if Qeq_bool x 0 then NaN else infinityOfSign (Qltb x 0)
  | PosInfinity, PosInfinity | NegInfinity, NegInfinity => PosInfinity
  | PosInfinity, NegInfinity | NegInfinity, PosInfinity => NegInfinity
  end.

Definition jdiv (a b : jsnum) : jsnum :=
  match a, b with
  | NaN, _ | _, NaN => NaN
  | Finite x, Finite y =>
      if Qeq_bool y 0
      then (if Qeq_bool x 0 then NaN else infinityOfSign (Qltb 0 x))
      else fin (x / y)
  | Finite _, PosInfinity | Finite _, NegInfinity => Finite 0
  | PosInfinity, Finite y => infinityOfSign (Qle_bool 0 y)
  | NegInfinity, Finite y => infinityOfSign (Qltb y 0)
  | _, _ => NaN
  end.

(** [x ** 2]. *)
Definition jsquare (a : jsnum) : jsnum := jmul a a.

Definition jabs (a : jsnum) : jsnum :=
  match a with
  | Finite x => Finite (Qabs x)
  | PosInfinity | NegInfinity => PosInfinity
  | NaN => NaN
  end.

(** [a < b], [a > b], [a === b]. *)
Definition jlt (a b : jsnum) : bool :=
  match a, b with
  | NaN, _ | _, NaN => false
  | Finite x, Finite y => Qltb x y
  | NegInfinity, NegInfinity => false
  | NegInfinity, _ => true
  | _, NegInfinity => false
  | PosInfinity, _ => false
  | _, PosInfinity => true
  end.

Definition jgt (a b : jsnum) : bool := jlt b a.

Definition jeq (a b : jsnum) : bool :=
  match a, b with
  | Finite x, Finite y => Qeq_bool x y
  | PosInfinity, PosInfinity | NegInfinity, NegInfinity => true
  | _, _ => false
  end.

(** [Math.min(a, b)], [Math.max(a, b)]. *)
Definition jmin (a b : jsnum) : jsnum :=
  match a, b with
  | NaN, _ | _, NaN => NaN
  | _, _ => if jlt b a then b else a
  end.

Definition jmax (a b : jsnum) : jsnum :=
  match a, b with
  | NaN, _ | _, NaN => NaN
  | _, _ => if jlt a b then b else a
  end.

(** [xs.length] as such a number: an array index is far below the
    threshold. *)
Definition jlen {X : Type} (xs : list X) : jsnum := Finite (len xs).

Declare Scope js_scope.
Delimit Scope js_scope with js.
Infix "+" := jadd : js_scope.
Infix "-" := jsub : js_scope.
Infix "*" := jmul : js_scope.
Infix "/" := jdiv : js_scope.

(* ================================================================== *)
(** * lib/types/index.ts                                               *)
(* ================================================================== *)

(** [type OceanTrait = 'O' | 'C' | 'E' | 'A' | 'N'].  The constructors live
    in a module of their own so that they can keep their one-letter names. *)
Module Trait.
Inductive t : Set := O | C | E | A | N.
End Trait.
Definition OceanTrait : Set := Trait.t.

(** [OceanScores], [NormalizedOceanScores] and [TraitVariances] are three
    interfaces of one shape: a number for each of the five traits. *)
Record OceanScores : Set := mkOceanScores
  { score_O : Q; score_C : Q; score_E : Q; score_A : Q; score_N : Q }.
Definition NormalizedOceanScores : Set := OceanScores.
Definition TraitVariances : Set := OceanScores.

(** [obj[trait]]. *)
Definition get (s : OceanScores) (t : OceanTrait) : Q :=
  match t with
  | Trait.O => score_O s
  | Trait.C => score_C s
  | Trait.E => score_E s
  | Trait.A => score_A s
  | Trait.N => score_N s
  end.

(** An object filled in key by key: [for (const trait of traits) obj[trait] = f(trait)]. *)
Definition build (f : OceanTrait -> Q) : OceanScores :=
  {| score_O := f Trait.O; score_C := f Trait.C; score_E := f Trait.E;
     score_A := f Trait.A; score_N := f Trait.N |}.

(** [Object.values(obj)], in key order. *)
Definition values (s : OceanScores) : list Q :=
  [score_O s; score_C s; score_E s; score_A s; score_N s].

(** The literal [['O', 'C', 'E', 'A', 'N']] that every loop of the engine walks. *)
Definition traits : list OceanTrait :=
  [Trait.O; Trait.C; Trait.E; Trait.A; Trait.N].

Inductive RiskRating : Set := low | moderate | elevated.

Inductive AssessmentDecision : Set :=
  approved | pending_approval | declined | manual_review | pending.

Inductive ConsistencyFlag : Set :=
  highly_consistent | normal_variance | moderate_discrepancy | high_discrepancy.

Record ConsistencyIndex : Set := mkConsistencyIndex
  { ci_C : Q; ci_N : Q; ci_A : Q; ci_O : Q; ci_E : Q;
    overall : Q; flag : ConsistencyFlag }.

Record QuestionResponse : Set := mkQuestionResponse
  { trait : OceanTrait; score : Q }.

(* ================================================================== *)
(** * lib/constants/index.ts                                           *)
(* ================================================================== *)

Definition TRAIT_WEIGHTS (t : OceanTrait) : Q :=
  match t with
  | Trait.C => 0.35
  | Trait.N => 0.25
  | Trait.A => 0.18
  | Trait.O => 0.12
  | Trait.E => 0.10
  end.

Definition PD_MIN : Q := 0.02.
Definition PD_MAX : Q := 0.35.
Definition PD_RANGE : Q := PD_MAX - PD_MIN.

Definition RISK_THRESHOLDS_low : Q := 0.08.
Definition RISK_THRESHOLDS_moderate : Q := 0.18.

Record BlendWeight : Set := mkBlendWeight { phase1 : Q; phase2 : Q }.

Definition BLENDING_WEIGHTS (t : OceanTrait) : BlendWeight :=
  match t with
  | Trait.C => {| phase1 := 0.55; phase2 := 0.45 |}
  | Trait.N => {| phase1 := 0.50; phase2 := 0.50 |}
  | Trait.A => {| phase1 := 0.60; phase2 := 0.40 |}
  | Trait.O => {| phase1 := 0.45; phase2 := 0.55 |}
  | Trait.E => {| phase1 := 0.55; phase2 := 0.45 |}
  end.

Definition CONSISTENCY_THRESHOLDS_highly_consistent : Q := 0.20.
Definition CONSISTENCY_THRESHOLDS_normal_variance : Q := 0.40.
Definition CONSISTENCY_THRESHOLDS_moderate_discrepancy : Q := 0.60.

Definition SUPPLY_RUN_CONFIG_max_cargo : Q := 7.

Definition LOAN_THRESHOLDS_auto_approve_pd : Q := 0.08.
Definition LOAN_THRESHOLDS_manual_review_pd : Q := 0.18.
Definition LOAN_THRESHOLDS_consistency_review_threshold : Q := 0.40.

Definition LOAN_PARAMS_max_amount (r : RiskRating) : Q :=
  match r with low => 50000 | moderate => 25000 | elevated => 10000 end.
Definition LOAN_PARAMS_duration_months (r : RiskRating) : Q :=
  match r with low => 36 | moderate => 24 | elevated => 12 end.
Definition LOAN_PARAMS_apr_percent (r : RiskRating) : Q :=
  match r with low => 8.5 | moderate => 14.0 | elevated => 22.0 end.

(* ================================================================== *)
(** * lib/scoring/ocean.ts                                             *)
(* ================================================================== *)

(** [average(values, defaultValue)]. *)
Definition average (vs : list Q) (defaultValue : Q) : Q :=
  match vs with
  | [] => defaultValue
  | _ => sum vs / len vs
  end.

(** [variance(values)]: population variance, 1.0 below two samples. *)
Definition variance (vs : list Q) : Q :=
  if Qltb (len vs) 2 then 1.0
  else
    let mean := sum vs / len vs in
    let squaredDiffs := map (fun v => (v - mean) ^ 2) vs in
    sum squaredDiffs / len vs.

(** The scores recorded for one trait, in answer order. *)
Definition traitScores (responses : list QuestionResponse) (t : OceanTrait) : list Q :=
  map score
    (filter (fun r => match trait r, t with
                      | Trait.O, Trait.O | Trait.C, Trait.C | Trait.E, Trait.E
                      | Trait.A, Trait.A | Trait.N, Trait.N => true
                      | _, _ => false
                      end) responses).

Definition computeTraitAverages (responses : list QuestionResponse) : OceanScores :=
  build (fun t => average (traitScores responses t) 3.0).

Definition computeTraitVariances (responses : list QuestionResponse) : TraitVariances :=
  build (fun t => variance (traitScores responses t)).

(** The loop state of [selectHighestVarianceTrait]: [(maxVariance, maxTrait)]. *)
Definition selectStep (variances : TraitVariances)
    (st : Q * OceanTrait) (t : OceanTrait) : Q * OceanTrait :=
  if Qgtb (get variances t) (fst st) then (get variances t, t) else st.

Definition selectLoop (variances : TraitVariances) : Q * OceanTrait :=
  fold_left (selectStep variances) traits (-1, Trait.C).

Definition selectHighestVarianceTrait (variances : TraitVariances) : OceanTrait :=
  snd (selectLoop variances).

Definition isAssessmentComplete (variances : TraitVariances)
    (questionCount varianceThreshold minQuestions maxQuestions : Q) : bool :=
  if Qgeb questionCount maxQuestions then true
  else if Qltb questionCount minQuestions then false
  else
    let allBelowThreshold :=
      forallb (fun v => Qltb v varianceThreshold) (values variances) in
    allBelowThreshold.

Definition normalizeScore (score : Q) : Q :=
  Math_max 0 (Math_min 1 ((score - 1) / 4)).

Definition denormalizeScore (normalized : Q) : Q :=
  1 + normalized * 4.

(* ================================================================== *)
(** * lib/scoring/pd.ts                                                *)
(* ================================================================== *)

(** [computeRiskContributions]: C inverted, the other four direct. *)
Definition computeRiskContributions (scores : OceanScores) : OceanScores :=
  {| score_C := (5 - score_C scores) / 4;
     score_N := (score_N scores - 1) / 4;
     score_A := (score_A scores - 1) / 4;
     score_O := (score_O scores - 1) / 4;
     score_E := (score_E scores - 1) / 4 |}.

Definition computeWeightedRisk (scores : OceanScores) : Q :=
  let risks := computeRiskContributions scores in
  TRAIT_WEIGHTS Trait.C * score_C risks +
  TRAIT_WEIGHTS Trait.N * score_N risks +
  TRAIT_WEIGHTS Trait.A * score_A risks +
  TRAIT_WEIGHTS Trait.O * score_O risks +
  TRAIT_WEIGHTS Trait.E * score_E risks.

Definition computePD (scores : OceanScores) : Q :=
  let weightedRisk := computeWeightedRisk scores in
  Math_min PD_MAX (Math_max PD_MIN (PD_MIN + weightedRisk * PD_RANGE)).

Definition applyProfileModifier (pd modifier : Q) : Q :=
  let modified := pd + modifier in
  Math_min PD_MAX (Math_max PD_MIN modified).

Definition getRiskRating (pd : Q) : RiskRating :=
  if Qltb pd RISK_THRESHOLDS_low then low
  else if Qltb pd RISK_THRESHOLDS_moderate then moderate
  else elevated.

Record FullPD : Set := mkFullPD
  { riskContributions : OceanScores;
    weightedRisk : Q;
    pdRaw : Q;
    pdModified : Q;
    riskRating : RiskRating }.

Definition calculateFullPD (scores : OceanScores) (profileModifier : Q) : FullPD :=
  let riskContributions := computeRiskContributions scores in
  let weightedRisk := computeWeightedRisk scores in
  let pdRaw := computePD scores in
  let pdModified := applyProfileModifier pdRaw profileModifier in
  let riskRating := getRiskRating pdModified in
  {| riskContributions := riskContributions;
     weightedRisk := weightedRisk;
     pdRaw := pdRaw;
     pdModified := pdModified;
     riskRating := riskRating |}.

(* ================================================================== *)
(** * lib/scoring/blending.ts                                          *)
(* ================================================================== *)

Definition blendScores (phase1Scores : OceanScores)
    (phase2Scores : NormalizedOceanScores) : OceanScores :=
  build (fun trait =>
    let weights := BLENDING_WEIGHTS trait in
    let phase1Normalized := normalizeScore (get phase1Scores trait) in
    let blendedNormalized :=
      phase1 weights * phase1Normalized + phase2 weights * get phase2Scores trait in
    denormalizeScore blendedNormalized).

Definition getConsistencyFlag (overall : Q) : ConsistencyFlag :=
  if Qltb overall CONSISTENCY_THRESHOLDS_highly_consistent then highly_consistent
  else if Qltb overall CONSISTENCY_THRESHOLDS_normal_variance then normal_variance
  else if Qltb overall CONSISTENCY_THRESHOLDS_moderate_discrepancy then moderate_discrepancy
  else high_discrepancy.

Definition computeConsistencyIndex (phase1Scores : OceanScores)
    (phase2Scores : NormalizedOceanScores) : ConsistencyIndex :=
  let perTrait := build (fun trait =>
    let phase1Normalized := normalizeScore (get phase1Scores trait) in
    Math_abs (phase1Normalized - get phase2Scores trait)) in
  let overall :=
    fold_left (fun sum trait => sum + TRAIT_WEIGHTS trait * get perTrait trait)
              traits 0 in
  let flag := getConsistencyFlag overall in
  {| ci_C := score_C perTrait;
     ci_N := score_N perTrait;
     ci_A := score_A perTrait;
     ci_O := score_O perTrait;
     ci_E := score_E perTrait;
     overall := overall;
     flag := flag |}.

(* ================================================================== *)
(** * lib/scoring/loan.ts                                              *)
(* ================================================================== *)

(** The TypeScript type of [userFacingDecision] is the two-member union
    ['approved' | 'pending_approval'], a sub-union of [AssessmentDecision].
    The field is given the wider type here, so that the restriction to two
    values is something to prove about the branches rather than a typing
    artefact.  The three free-text [...Basis] strings are display text and
    are left out. *)
Record LoanDecisionResult : Set := mkLoanDecisionResult
  { decision : AssessmentDecision;
    userFacingDecision : AssessmentDecision;
    maxAmount : Q;
    durationMonths : Q;
    aprPercent : Q }.

Definition determineLoanDecision (pd : Q) (riskRating : RiskRating)
    (consistency : option ConsistencyIndex) : LoanDecisionResult :=
  (* consistency?.overall ?? 0 *)
  let consistencyOverall :=
    match consistency with Some c => overall c | None => 0 end in
  let '(decision, userFacingDecision) :=
    if Qgtb consistencyOverall LOAN_THRESHOLDS_consistency_review_threshold
    then (manual_review, pending_approval)
    else if Qltb pd LOAN_THRESHOLDS_auto_approve_pd
    then (approved, approved)
    else if Qltb pd LOAN_THRESHOLDS_manual_review_pd
    then (pending_approval, pending_approval)
    else (manual_review, pending_approval) in
  {| decision := decision;
     userFacingDecision := userFacingDecision;
     maxAmount := LOAN_PARAMS_max_amount riskRating;
     durationMonths := LOAN_PARAMS_duration_months riskRating;
     aprPercent := LOAN_PARAMS_apr_percent riskRating |}.

(* ================================================================== *)
(** * lib/scoring/behavioral.ts                                        *)
(* ================================================================== *)

Record CargoLoad : Set := mkCargoLoad
  { crates : Q; tipped : bool; reward : Q; delivery_id : Q }.

Record BankingEvent : Set := mkBankingEvent
  { timestamp_ms : Q; amount : Q; balance_before : Q }.

Record PathRecord : Set := mkPathRecord
  { actual_dist : Q; optimal_dist : Q; path_delivery_id : Q }.

Inductive LossType : Set := theft | tip_over | penalty.

Record LossEvent : Set := mkLossEvent
  { loss_type : LossType; loss_timestamp_ms : Q; amount_lost : Q;
    behavior_delta : Q }.

Record SharingEvent : Set := mkSharingEvent
  { offered : bool; accepted : bool; reward_split : Q }.

(** The fields of [BehavioralSignals] that the scoring engine reads (the
    identifiers and the stored result fields are not inputs). *)
Record BehavioralSignals : Set := mkBehavioralSignals
  { duration_ms : Q;
    tap_velocities : list Q;
    path_records : list PathRecord;
    banking_events : list BankingEvent;
    cargo_loads : list CargoLoad;
    loss_events : list LossEvent;
    sharing_events : list SharingEvent;
    exploration_tiles : Q;
    total_tiles : Q;
    crowd_time_ms : Q;
    quiet_time_ms : Q;
    multi_order_counts : list Q }.

Definition clamp01 (value : jsnum) : jsnum :=
  jmax (Finite 0) (jmin (Finite 1) value).

(** [xs.reduce((s, v) => s + v, 0)] on numbers that can overflow. *)
Definition jsum (xs : list jsnum) : jsnum :=
  fold_left (fun s v => (s + v)%js) xs (Finite 0).

(** [events[i].timestamp_ms - events[i - 1].timestamp_ms] for [i] from 1 to
    [events.length - 1]. *)
Fixpoint bankingIntervals (events : list BankingEvent) : list jsnum :=
  match events with
  | prev :: (cur :: _) as rest =>
      (Finite (timestamp_ms cur) - Finite (timestamp_ms prev))%js
      :: bankingIntervals rest
  | _ => []
  end.

(** The five scores of [computeAllBehavioralScores]. *)
Record BehavioralScores : Set := mkBehavioralScores
  { b_C : jsnum; b_N : jsnum; b_A : jsnum; b_O : jsnum; b_E : jsnum }.

Section Behavioral.

(** The value of [Math.sqrt] on a non-negative finite number: any function
    will do, nothing below depends on which one. *)
Variable sqrtQ : Q -> Q.

Definition Math_sqrt (a : jsnum) : jsnum :=
  match a with
  | Finite x => if Qltb x 0 then NaN else Finite (sqrtQ x)
  | PosInfinity => PosInfinity
  | NegInfinity => NaN
  | NaN => NaN
  end.

Definition computeBartScore (cargoLoads : list CargoLoad) : jsnum :=
  let successful := filter (fun c => negb (tipped c)) cargoLoads in
  if Qeq_bool (len successful) 0 then Finite 0.5
  else
    let avgCrates :=
      (fold_left (fun sum c => sum + Finite (crates c)) successful (Finite 0)
       / jlen successful)%js in
    clamp01 (avgCrates / Finite SUPPLY_RUN_CONFIG_max_cargo)%js.

Definition computePathEfficiency (paths : list PathRecord) : jsnum :=
  if Qeq_bool (len paths) 0 then Finite 0.5
  else
    let efficiencies :=
      map (fun p =>
             if Qgtb (actual_dist p) 0
             then jmin (Finite 1)
                       (Finite (optimal_dist p) / Finite (actual_dist p))%js
             else Finite 0) paths in
    (jsum efficiencies / jlen efficiencies)%js.

Definition computeBankingRegularity (events : list BankingEvent)
    (totalDuration : Q) : jsnum :=
  if Qltb (len events) 2
  then Finite (if Qeq_bool (len events) 1 then 0.5 else 0.2)
  else
    let intervals := bankingIntervals events in
    let mean := (jsum intervals / jlen intervals)%js in
    if jeq mean (Finite 0) then Finite 0.5
    else
      let std :=
        Math_sqrt
          (fold_left (fun s v => s + jsquare (v - mean)) intervals (Finite 0)
           / jlen intervals)%js in
      let cv := (std / mean)%js in
      clamp01 (Finite 1 - cv / Finite 2)%js.

Definition computeTapDeliberation (velocities : list Q) : jsnum :=
  if Qeq_bool (len velocities) 0 then Finite 0.5
  else
    let avgInterval := (jsum (map Finite velocities) / jlen velocities)%js in
    if jlt avgInterval (Finite 200) then Finite 0.2
    else if jlt avgInterval (Finite 400) then Finite 0.5
    else if jlt avgInterval (Finite 800) then Finite 0.9
    else if jlt avgInterval (Finite 1200) then Finite 0.7
    else Finite 0.4.

Definition computePostLossChange (lossEvents : list LossEvent)
    (velocities : list Q) : jsnum :=
  if Qeq_bool (len lossEvents) 0 then Finite 0.3
  else
    let avgDelta :=
      (fold_left (fun s e => s + jabs (Finite (behavior_delta e)))
                 lossEvents (Finite 0)
       / jlen lossEvents)%js in
    clamp01 avgDelta.

Definition computeHesitationPattern (velocities : list Q) : jsnum :=
  if Qltb (len velocities) 3 then Finite 0.5
  else
    let mean := (jsum (map Finite velocities) / jlen velocities)%js in
    let std :=
      Math_sqrt
        (fold_left (fun s v => s + jsquare (Finite v - mean)) velocities (Finite 0)
         / jlen velocities)%js in
    let cv := if jgt mean (Finite 0) then (std / mean)%js else Finite 0 in
    clamp01 (cv / Finite 1.5)%js.

Definition computeSharingRate (events : list SharingEvent) : jsnum :=
  if Qeq_bool (len events) 0 then Finite 0.5
  else
    let nAccepted := filter (fun e => offered e && accepted e) events in
    let nOffered := filter (fun e => offered e) events in
    if Qgtb (len nOffered) 0 then (jlen nAccepted / jlen nOffered)%js
    else Finite 0.5.

Definition computeTipRate (events : list SharingEvent) : jsnum :=
  if Qeq_bool (len events) 0 then Finite 0.5
  else
    let avgSplit :=
      (fold_left (fun s e => s + Finite (reward_split e)) events (Finite 0)
       / jlen events)%js in
    clamp01 avgSplit.

Definition computeHelpAcceptance (events : list SharingEvent) : jsnum :=
  if Qeq_bool (len events) 0 then Finite 0.5
  else
    let helpOffered := filter (fun e => offered e) events in
    if Qeq_bool (len helpOffered) 0 then Finite 0.5
    else
      let nAccepted := filter (fun e => accepted e) helpOffered in
      (jlen nAccepted / jlen helpOffered)%js.

Definition computeShortcutUsage (paths : list PathRecord) : jsnum :=
  if Qeq_bool (len paths) 0 then Finite 0.5
  else
    let shortcuts :=
      filter (fun p => jlt (Finite (actual_dist p))
                           (Finite (optimal_dist p) * Finite 0.95)%js) paths in
    clamp01 (jlen shortcuts / jlen paths)%js.

Definition computeMultiOrderRate (counts : list Q) : jsnum :=
  if Qeq_bool (len counts) 0 then Finite 0.5
  else
    let multi := filter (fun c => Qgtb c 1) counts in
    (jlen multi / jlen counts)%js.

Definition computeBehavioralC (signals : BehavioralSignals) : jsnum :=
  let pathEfficiency := computePathEfficiency (path_records signals) in
  let bankingRegularity :=
    computeBankingRegularity (banking_events signals) (duration_ms signals) in
  let tapDeliberation := computeTapDeliberation (tap_velocities signals) in
  clamp01 (Finite 0.40 * pathEfficiency + Finite 0.35 * bankingRegularity
           + Finite 0.25 * tapDeliberation)%js.

Definition computeBehavioralN (signals : BehavioralSignals) : jsnum :=
  let postLossChange :=
    computePostLossChange (loss_events signals) (tap_velocities signals) in
  let hesitationPattern := computeHesitationPattern (tap_velocities signals) in
  let inverseBart := (Finite 1 - computeBartScore (cargo_loads signals))%js in
  clamp01 (Finite 0.40 * postLossChange + Finite 0.30 * hesitationPattern
           + Finite 0.30 * inverseBart)%js.

Definition computeBehavioralA (signals : BehavioralSignals) : jsnum :=
  let sharingRate := computeSharingRate (sharing_events signals) in
  let tipRate := computeTipRate (sharing_events signals) in
  let helpAcceptance := computeHelpAcceptance (sharing_events signals) in
  clamp01 (Finite 0.40 * sharingRate + Finite 0.30 * tipRate
           + Finite 0.30 * helpAcceptance)%js.

Definition computeBehavioralO (signals : BehavioralSignals) : jsnum :=
  let explorationRate :=
    if Qgtb (total_tiles signals) 0
    then (Finite (exploration_tiles signals) / Finite (total_tiles signals))%js
    else Finite 0 in
  let shortcutUsage := computeShortcutUsage (path_records signals) in
  let bartScore := computeBartScore (cargo_loads signals) in
  clamp01 (Finite 0.35 * explorationRate + Finite 0.30 * shortcutUsage
           + Finite 0.35 * bartScore)%js.

Definition computeBehavioralE (signals : BehavioralSignals) : jsnum :=
  let totalTime :=
    (Finite (crowd_time_ms signals) + Finite (quiet_time_ms signals))%js in
  let crowdAffinity :=
    if jgt totalTime (Finite 0)
    then (Finite (crowd_time_ms signals) / totalTime)%js
    else Finite 0.5 in
  let multiOrderRate := computeMultiOrderRate (multi_order_counts signals) in
  clamp01 (Finite 0.55 * crowdAffinity + Finite 0.45 * multiOrderRate)%js.

Definition computeAllBehavioralScores (signals : BehavioralSignals)
    : BehavioralScores :=
  {| b_C := computeBehavioralC signals;
     b_N := computeBehavioralN signals;
     b_A := computeBehavioralA signals;
     b_O := computeBehavioralO signals;
     b_E := computeBehavioralE signals |}.

End Behavioral.

(* ================================================================== *)
(** * lib/constants/index.ts: question and profile configuration       *)
(* ================================================================== *)

Definition QUESTION_CONFIG_min_questions : Q := 8.
Definition QUESTION_CONFIG_max_questions : Q := 15.
Definition QUESTION_CONFIG_variance_threshold : Q := 0.3.

(** [type QuestionType]. *)
Inductive QuestionType : Set :=
  grid | bars | budget | timeline | reaction | tradeoff.

(** The two fields of a candidate question that the selection reads. *)
Record Candidate : Set := mkCandidate
  { cand_trait : OceanTrait; question_type : QuestionType }.

(** A money profile: its name, its partial trait signature (the keys in
    the order the object literal lists them) and its PD modifier.  The two
    free-text fields are not read by the engine. *)
Record MoneyProfile : Set := mkMoneyProfile
  { name : string;
    trait_signature : list (OceanTrait * Q);
    pd_modifier : Q }.

Definition PrudentPlanner : MoneyProfile :=
  {| name := "Prudent Planner";
     trait_signature := [(Trait.C, 4.5); (Trait.N, 1.5)];
     pd_modifier := -0.03 |}.
Definition AnxiousSaver : MoneyProfile :=
  {| name := "Anxious Saver";
     trait_signature := [(Trait.N, 4.5); (Trait.C, 3.5)];
     pd_modifier := -0.01 |}.
Definition SocialSpender : MoneyProfile :=
  {| name := "Social Spender";
     trait_signature := [(Trait.A, 4.5); (Trait.E, 4.0)];
     pd_modifier := 0.02 |}.
Definition ImpulsiveOptimist : MoneyProfile :=
  {| name := "Impulsive Optimist";
     trait_signature := [(Trait.O, 4.5); (Trait.N, 1.5); (Trait.C, 2.0)];
     pd_modifier := 0.05 |}.
Definition CautiousTraditionalist : MoneyProfile :=
  {| name := "Cautious Traditionalist";
     trait_signature := [(Trait.O, 1.5); (Trait.C, 4.0)];
     pd_modifier := -0.02 |}.
Definition BalancedOperator : MoneyProfile :=
  {| name := "Balanced Operator";
     trait_signature := [(Trait.C, 3.0); (Trait.N, 3.0); (Trait.A, 3.0);
                         (Trait.O, 3.0); (Trait.E, 3.0)];
     pd_modifier := 0.00 |}.
Definition DrivenAchiever : MoneyProfile :=
  {| name := "Driven Achiever";
     trait_signature := [(Trait.C, 4.0); (Trait.E, 4.5); (Trait.N, 2.0)];
     pd_modifier := -0.01 |}.
Definition CautiousInnovator : MoneyProfile :=
  {| name := "Cautious Innovator";
     trait_signature := [(Trait.O, 4.0); (Trait.C, 4.0)];
     pd_modifier := -0.02 |}.
Definition SocialPlanner : MoneyProfile :=
  {| name := "Social Planner";
     trait_signature := [(Trait.A, 4.0); (Trait.C, 4.0)];
     pd_modifier := -0.01 |}.
Definition StressedReactor : MoneyProfile :=
  {| name := "Stressed Reactor";
     trait_signature := [(Trait.N, 4.5); (Trait.C, 1.5)];
     pd_modifier := 0.06 |}.

Definition MONEY_PROFILES : list MoneyProfile :=
  [PrudentPlanner; AnxiousSaver; SocialSpender; ImpulsiveOptimist;
   CautiousTraditionalist; BalancedOperator; DrivenAchiever;
   CautiousInnovator; SocialPlanner; StressedReactor].

(* ================================================================== *)
(** * lib/scoring/profiles.ts                                          *)
(* ================================================================== *)

Record MatchResult : Set := mkMatchResult
  { profile : MoneyProfile; distance : jsnum; confidence : jsnum }.

Section Profiles.

Variable sqrtQ : Q -> Q.

Definition computeProfileDistance (scores : OceanScores)
    (profile : MoneyProfile) : jsnum :=
  let traits := trait_signature profile in
  if Qeq_bool (len traits) 0 then PosInfinity
  else
    let sumSquaredDiff :=
      fold_left (fun acc (entry : OceanTrait * Q) =>
                   let profileValue := Finite (snd entry) in
                   let applicantValue := Finite (get scores (fst entry)) in
                   (acc + jsquare (applicantValue - profileValue))%js)
                traits (Finite 0) in
    Math_sqrt sqrtQ sumSquaredDiff.

(** One turn of the matching loop on [(bestProfile, bestDistance)]. *)
Definition matchStep (scores : OceanScores)
    (st : MoneyProfile * jsnum) (profile : MoneyProfile) : MoneyProfile * jsnum :=
  let distance := computeProfileDistance scores profile in
  if jlt distance (snd st) then (profile, distance) else st.

Definition matchLoop (scores : OceanScores) (profiles : list MoneyProfile)
    (st : MoneyProfile * jsnum) : MoneyProfile * jsnum :=
  fold_left (matchStep scores) profiles st.

Definition matchMoneyProfile (scores : OceanScores) : MatchResult :=
  let st := matchLoop scores MONEY_PROFILES
              (hd PrudentPlanner MONEY_PROFILES, PosInfinity) in
  let bestDistance := snd st in
  {| profile := fst st;
     distance := bestDistance;
     confidence :=
       jmax (Finite 0) (jmin (Finite 1) (Finite 1 - bestDistance / Finite 6)%js) |}.

End Profiles.

(* ================================================================== *)
(** * lib/utils/claude-prompt.ts: selectOptimalQuestion                *)
(* ================================================================== *)

Definition QuestionType_eqb (a b : QuestionType) : bool :=
  match a, b with
  | grid, grid | bars, bars | budget, budget | timeline, timeline
  | reaction, reaction | tradeoff, tradeoff => true
  | _, _ => false
  end.

(** [previousTypes.includes(t)]. *)
Definition includes (previousTypes : list QuestionType) (t : QuestionType) : bool :=
  existsb (QuestionType_eqb t) previousTypes.

(** The score the loop gives a candidate. *)
Definition candidateScore (traitVariances : TraitVariances)
    (previousTypes : list QuestionType) (candidate : Candidate) : Q :=
  let score := get traitVariances (cand_trait candidate) in
  if negb (includes previousTypes (question_type candidate))
  then score + 0.2 else score.

(** The loop from index [i] on, with [bestScore = None] for [-Infinity]. *)
Fixpoint selectOptimalLoop (traitVariances : TraitVariances)
    (previousTypes : list QuestionType) (candidates : list Candidate)
    (i bestIndex : nat) (bestScore : option Q) : nat :=
  match candidates with
  | [] => bestIndex
  | candidate :: rest =>
      let score := candidateScore traitVariances previousTypes candidate in
      let better :=
        match bestScore with
        | None => true
        | Some b => Qgtb score b
        end in
      if better
      then selectOptimalLoop traitVariances previousTypes rest (S i) i (Some score)
      else selectOptimalLoop traitVariances previousTypes rest (S i) bestIndex bestScore
  end.

Definition selectOptimalQuestion (candidates : list Candidate)
    (traitVariances : TraitVariances) (previousTypes : list QuestionType) : nat :=
  selectOptimalLoop traitVariances previousTypes candidates 0 0 None.

(* ================================================================== *)
(** * src/game/scenes/phase1/question-types/ReactionQuestion.ts        *)
(* ================================================================== *)

(** The score sent for a reaction question: the option's score, adjusted by
    the time to tap. *)
Definition adjustedScore (optionScore reactionTime : Q) : Q :=
  if Qltb reactionTime 500 then Math_min 5 (optionScore + 0.5)
  else if Qgtb reactionTime 3000 then Math_max 1 (optionScore - 0.3)
  else optionScore.

(* ================================================================== *)
(** * api/game/complete.ts and api/game/behavioral-score.ts            *)
(* ================================================================== *)

(** [LoanRecommendation.decision]. *)
Module Recommendation.
Inductive decision : Set := approve | decline | manual_review.
End Recommendation.

(** The decision stored with the loan recommendation, as both handlers
    compute it from the internal decision. *)
Definition recommendationDecision (d : AssessmentDecision) : Recommendation.decision :=
  match d with
  | approved => Recommendation.approve
  | declined => Recommendation.decline
  | _ => Recommendation.manual_review
  end.

Record Phase1Scoring : Set := mkPhase1Scoring
  { p1_traitScores : OceanScores;
    p1_match : MatchResult;
    p1_pdResult : FullPD;
    p1_loanDecision : LoanDecisionResult }.

(** The scoring steps of the Phase-1 completion handler, between its
    database reads and writes. *)
Definition completePhase1 (sqrtQ : Q -> Q)
    (responses : list QuestionResponse) : Phase1Scoring :=
  let traitScores := computeTraitAverages responses in
  let m := matchMoneyProfile sqrtQ traitScores in
  let pdResult := calculateFullPD traitScores (pd_modifier (profile m)) in
  let loanDecision :=
    determineLoanDecision (pdModified pdResult) (riskRating pdResult) None in
  {| p1_traitScores := traitScores;
     p1_match := m;
     p1_pdResult := pdResult;
     p1_loanDecision := loanDecision |}.

Record Phase2Scoring : Set := mkPhase2Scoring
  { p2_blendedScores : OceanScores;
    p2_consistency : ConsistencyIndex;
    p2_match : MatchResult;
    p2_pdResult : FullPD;
    p2_loanDecision : LoanDecisionResult }.

(** The scoring steps of the blended-score handler. *)
Definition completePhase2 (sqrtQ : Q -> Q)
    (phase1Scores : OceanScores) (phase2Scores : NormalizedOceanScores)
    : Phase2Scoring :=
  let blendedScores := blendScores phase1Scores phase2Scores in
  let consistency := computeConsistencyIndex phase1Scores phase2Scores in
  let m := matchMoneyProfile sqrtQ blendedScores in
  let pdResult := calculateFullPD blendedScores (pd_modifier (profile m)) in
  let loanDecision :=
    determineLoanDecision (pdModified pdResult) (riskRating pdResult)
                          (Some consistency) in
  {| p2_blendedScores := blendedScores;
     p2_consistency := consistency;
     p2_match := m;
     p2_pdResult := pdResult;
     p2_loanDecision := loanDecision |}.

(* ================================================================== *)
(** * Vocabulary of the specification                                  *)
(* ================================================================== *)

(** A trait vector on the raw 1-5 scale. *)
Definition raw_scale (s : OceanScores) : Prop :=
  forall t, 1 <= get s t /\ get s t <= 5.

(** Trait-wise equality of numbers. *)
Definition scores_eq (a b : OceanScores) : Prop :=
  forall t, get a t == get b t.

(** The per-trait normalization of a raw vector, [y[t] = (x[t] - 1) / 4]. *)
Definition normalized_of (x : OceanScores) : NormalizedOceanScores :=
  build (fun t => (get x t - 1) / 4).

(** [v'] is trait by trait at most [v]. *)
Definition variances_le (v' v : TraitVariances) : Prop :=
  forall t, get v' t <= get v t.

(** Position of a trait in the enumeration O, C, E, A, N. *)
Definition position (t : OceanTrait) : nat :=
  match t with
  | Trait.O => 0 | Trait.C => 1 | Trait.E => 2 | Trait.A => 3 | Trait.N => 4
  end.

(** [t] has a maximal variance, and no trait before it in the enumeration
    reaches that variance. *)
Definition first_maximal (v : TraitVariances) (t : OceanTrait) : Prop :=
  (forall t', get v t' <= get v t) /\
  (forall t', (position t' < position t)%nat -> get v t' < get v t).

(** The degenerate input: all five variances equal. *)
Definition all_equal (v : TraitVariances) : Prop :=
  forall t t', get v t == get v t'.

(** The variance map before any measurement
    (api/game/behavioral-config.ts, [initialVariances]). *)
Definition initialVariances : TraitVariances :=
  {| score_O := 1.0; score_C := 1.0; score_E := 1.0; score_A := 1.0;
     score_N := 1.0 |}.

(** The importance-weighted average of five per-trait numbers, in the
    specification's words: weights C 0.35, N 0.25, A 0.18, O 0.12, E 0.10. *)
Definition weighted_average (c n a o e : Q) : Q :=
  (0.35 * c + 0.25 * n + 0.18 * a + 0.12 * o + 0.10 * e)
  / (0.35 + 0.25 + 0.18 + 0.12 + 0.10).

(** The two worked trait vectors of the specification. *)
Definition scenarioA : OceanScores :=
  {| score_O := 3; score_C := 5; score_E := 3; score_A := 3; score_N := 1 |}.
Definition scenarioB : OceanScores :=
  {| score_O := 3; score_C := 1; score_E := 3; score_A := 3; score_N := 5 |}.

(** A consistency index whose only relevant field is [overall]. *)
Definition consistency_with (o : Q) : ConsistencyIndex :=
  {| ci_C := o; ci_N := o; ci_A := o; ci_O := o; ci_E := o;
     overall := o; flag := getConsistencyFlag o |}.

(** The trait vector with the same number [q] on every trait. *)
Definition uniform (q : Q) : OceanScores :=
  {| score_O := q; score_C := q; score_E := q; score_A := q; score_N := q |}.

(** A map of numbers none of which exceeds the loop's initial -1. *)
Definition belowSentinel : TraitVariances :=
  {| score_O := -1; score_C := -2; score_E := -3; score_A := -4;
     score_N := -5 |}.

(** A number of [0,1]. *)
Definition unit_number (a : jsnum) : Prop :=
  exists q, a = Finite q /\ 0 <= q /\ q <= 1.


(** A number that is not negative: [Infinity] or a finite one from 0 up. *)
Definition nonneg_number (a : jsnum) : Prop :=
  a = PosInfinity \/ exists q, a = Finite q /\ 0 <= q.

(** An array has at most 2^32 - 1 elements. *)
Definition array_length_ok {X : Type} (xs : list X) : Prop :=
  len xs <= 4294967295.

(** The exact differences of consecutive timestamps. *)
Fixpoint timestampGaps (events : list BankingEvent) : list Q :=
  match events with
  | prev :: (cur :: _) as rest =>
      (timestamp_ms cur - timestamp_ms prev) :: timestampGaps rest
  | _ => []
  end.

(** Half the range of a double. *)
Definition HALF_RANGE : Q := inject_Z (2 ^ 1023).

(** The magnitudes of a list of numbers add up to at most half the range of
    a double, so that no partial sum of the list comes near the overflow
    threshold. *)
Definition sum_in_range (xs : list Q) : Prop :=
  sum (map Qabs xs) <= HALF_RANGE.

(** Five finite scores, as numbers that can overflow. *)
Definition scoresOf (s : NormalizedOceanScores) : BehavioralScores :=
  {| b_C := Finite (score_C s); b_N := Finite (score_N s);
     b_A := Finite (score_A s); b_O := Finite (score_O s);
     b_E := Finite (score_E s) |}.

(** A bundle with nothing recorded but the given tap intervals and banking
    timestamps. *)
Definition bundleOf (taps : list Q) (bankingTimes : list Q) : BehavioralSignals :=
  {| duration_ms := 60000;
     tap_velocities := taps;
     path_records := [];
     banking_events :=
       map (fun t => {| timestamp_ms := t; amount := 0; balance_before := 0 |})
           bankingTimes;
     cargo_loads := [];
     loss_events := [];
     sharing_events := [];
     exploration_tiles := 0;
     total_tiles := 0;
     crowd_time_ms := 0;
     quiet_time_ms := 0;
     multi_order_counts := [] |}.




(** A bundle within range: three taps, three banking events. *)
Definition steadyPlayer : BehavioralSignals :=
  bundleOf [300; 500; 700] [1000; 21000; 41000].

(* ================================================================== *)
(** * Comparisons, minimum and maximum                                 *)
(* ================================================================== *)

Lemma Qltb_spec (a b : Q) : reflect (a < b) (Qltb a b).
Proof.
  unfold Qltb. destruct (Qle_bool b a) eqn:E; constructor.
  - apply Qle_bool_iff in E. lra.
  - assert (~ b <= a) by (rewrite <- Qle_bool_iff; congruence). lra.
Qed.

Lemma Qgtb_spec (a b : Q) : reflect (b < a) (Qgtb a b).
Proof. unfold Qgtb. apply Qltb_spec. Qed.

Lemma Qgeb_spec (a b : Q) : reflect (b <= a) (Qgeb a b).
Proof.
  unfold Qgeb. destruct (Qle_bool b a) eqn:E; constructor.
  - now apply Qle_bool_iff.
  - rewrite <- Qle_bool_iff. congruence.
Qed.

Lemma Qeqb_spec (a b : Q) : reflect (a == b) (Qeq_bool a b).
Proof.
  destruct (Qeq_bool a b) eqn:E; constructor.
  - now apply Qeq_bool_iff.
  - now apply Qeq_bool_neq.
Qed.

(** Case analysis on every comparison of the goal. *)
Ltac qcases :=
  repeat match goal with
  | |- context [Qltb ?a ?b] => destruct (Qltb_spec a b)
  | |- context [Qgtb ?a ?b] => destruct (Qgtb_spec a b)
  | |- context [Qgeb ?a ?b] => destruct (Qgeb_spec a b)
  | |- context [Qeq_bool ?a ?b] => destruct (Qeqb_spec a b)
  end.

(** Division by a numeric constant, rewritten as a product for [lra]. *)
Ltac qdiv_consts :=
  unfold Qdiv in *;
  repeat match goal with
  | |- context [Qinv ?c] =>
      let v := eval vm_compute in (Qinv c) in
      match v with Qmake _ _ => change (Qinv c) with v end
  | H : context [Qinv ?c] |- _ =>
      let v := eval vm_compute in (Qinv c) in
      match v with Qmake _ _ => change (Qinv c) with v in H end
  end.

Ltac qarith := qdiv_consts; lra.

(** Case analysis on every [Qmin] and [Qmax], leaving linear facts. *)
Ltac minmax_cases :=
  unfold Math_min, Math_max in *;
  repeat match goal with
  | |- context [Qmin ?a ?b] =>
      let m := fresh "m" in
      let H := fresh "Hm" in
      pose proof (Q.min_spec a b) as H;
      set (m := Qmin a b) in *; clearbody m;
      destruct H as [[? ?]|[? ?]]
  | |- context [Qmax ?a ?b] =>
      let m := fresh "m" in
      let H := fresh "Hm" in
      pose proof (Q.max_spec a b) as H;
      set (m := Qmax a b) in *; clearbody m;
      destruct H as [[? ?]|[? ?]]
  | H0 : context [Qmin ?a ?b] |- _ =>
      let m := fresh "m" in
      let H := fresh "Hm" in
      pose proof (Q.min_spec a b) as H;
      set (m := Qmin a b) in *; clearbody m;
      destruct H as [[? ?]|[? ?]]
  | H0 : context [Qmax ?a ?b] |- _ =>
      let m := fresh "m" in
      let H := fresh "Hm" in
      pose proof (Q.max_spec a b) as H;
      set (m := Qmax a b) in *; clearbody m;
      destruct H as [[? ?]|[? ?]]
  end.

Lemma len_cons_pos {X : Type} (x : X) (xs : list X) : 0 < len (x :: xs).
Proof.
  unfold len. change 0 with (inject_Z 0). rewrite <- Zlt_Qlt.
  cbn [List.length]. lia.
Qed.

Lemma Qdiv_nonneg (a b : Q) : 0 <= a -> 0 < b -> 0 <= a / b.
Proof. intros Ha Hb. apply Qle_shift_div_l; [assumption | lra]. Qed.

Lemma Qsquare_nonneg (y : Q) : 0 <= y ^ 2.
Proof. change (y ^ 2) with (y * y). nra. Qed.

Lemma clamp_between (lo hi x : Q) :
  lo <= hi -> lo <= Math_min hi (Math_max lo x) /\ Math_min hi (Math_max lo x) <= hi.
Proof. intros. minmax_cases; lra. Qed.

Lemma normalizeScore_in_range (r : Q) :
  1 <= r -> r <= 5 -> normalizeScore r == (r - 1) / 4.
Proof. intros. unfold normalizeScore. minmax_cases; qarith. Qed.

Lemma normalizeScore_unit (r : Q) :
  0 <= normalizeScore r /\ normalizeScore r <= 1.
Proof. unfold normalizeScore. minmax_cases; qarith. Qed.

(* ================================================================== *)
(** * ocean.ts: the scale conversion                                   *)
(* ================================================================== *)

(** C9.  For every raw score [r] in [1,5], denormalizing the normalized
    score gives [r] back (exactly, in rational arithmetic). *)
Theorem denormalize_normalize_roundtrip (r : Q) :
  1 <= r -> r <= 5 -> denormalizeScore (normalizeScore r) == r.
Proof.
  intros Hlo Hhi. unfold denormalizeScore.
  rewrite (normalizeScore_in_range r Hlo Hhi). field.
Qed.

Lemma denormalize_normalize_roundtrip_witness :
  1 <= 2.5 /\ 2.5 <= 5 /\ denormalizeScore (normalizeScore 2.5) == 2.5.
Proof.
  split; [lra | split; [lra |]].
  apply (denormalize_normalize_roundtrip 2.5); lra.
Defined.

(* ================================================================== *)
(** * blending.ts: blending with an agreeing behavioral source         *)
(* ================================================================== *)

Lemma BLENDING_WEIGHTS_sum (t : OceanTrait) :
  phase1 (BLENDING_WEIGHTS t) + phase2 (BLENDING_WEIGHTS t) == 1.
Proof. destruct t; reflexivity. Qed.

Lemma get_build (f : OceanTrait -> Q) (t : OceanTrait) : get (build f) t = f t.
Proof. destruct t; reflexivity. Qed.

(** C10.  For a raw-scale vector [x] with all components in [1,5], blending
    [x] with its own per-trait normalization gives [x] back, trait by trait. *)
Theorem blendScores_agreeing_source (x : OceanScores) :
  raw_scale x -> scores_eq (blendScores x (normalized_of x)) x.
Proof.
  intros Hx t. destruct (Hx t) as [Hlo Hhi].
  unfold blendScores, normalized_of. rewrite !get_build. cbv zeta.
  unfold denormalizeScore.
  rewrite (normalizeScore_in_range _ Hlo Hhi).
  pose proof (BLENDING_WEIGHTS_sum t) as Hw.
  set (w1 := phase1 (BLENDING_WEIGHTS t)) in *.
  set (w2 := phase2 (BLENDING_WEIGHTS t)) in *.
  set (n := (get x t - 1) / 4).
  assert (Hn : 1 + n * 4 == get x t) by (unfold n; field).
  assert (Hb : w1 * n + w2 * n == n).
  { setoid_replace (w1 * n + w2 * n) with ((w1 + w2) * n) by ring.
    rewrite Hw. ring. }
  rewrite Hb. exact Hn.
Qed.

Lemma blendScores_agreeing_source_witness :
  raw_scale scenarioA /\
  scores_eq (blendScores scenarioA (normalized_of scenarioA)) scenarioA.
Proof.
  assert (H : raw_scale scenarioA) by (intros t; destruct t; vm_compute; split; discriminate).
  split; [exact H | exact (blendScores_agreeing_source scenarioA H)].
Defined.

(* ================================================================== *)
(** * pd.ts: bounds of the risk model                                  *)
(* ================================================================== *)

Lemma TRAIT_WEIGHTS_sum :
  TRAIT_WEIGHTS Trait.C + TRAIT_WEIGHTS Trait.N + TRAIT_WEIGHTS Trait.A
  + TRAIT_WEIGHTS Trait.O + TRAIT_WEIGHTS Trait.E == 1.
Proof. reflexivity. Qed.

Lemma computeRiskContributions_unit (s : OceanScores) (t : OceanTrait) :
  raw_scale s ->
  0 <= get (computeRiskContributions s) t /\ get (computeRiskContributions s) t <= 1.
Proof.
  intros Hs. destruct (Hs t) as [Hlo Hhi].
  destruct t; simpl in *; qarith.
Qed.

Lemma computeWeightedRisk_unit (s : OceanScores) :
  raw_scale s -> 0 <= computeWeightedRisk s /\ computeWeightedRisk s <= 1.
Proof.
  intros Hs.
  pose proof (computeRiskContributions_unit s Trait.C Hs) as HC.
  pose proof (computeRiskContributions_unit s Trait.N Hs) as HN.
  pose proof (computeRiskContributions_unit s Trait.A Hs) as HA.
  pose proof (computeRiskContributions_unit s Trait.O Hs) as HO.
  pose proof (computeRiskContributions_unit s Trait.E Hs) as HE.
  unfold computeWeightedRisk. cbv zeta.
  unfold get in HC, HN, HA, HO, HE.
  set (rs := computeRiskContributions s) in *. clearbody rs.
  unfold TRAIT_WEIGHTS. lra.
Qed.

Lemma computePD_bounds (s : OceanScores) :
  0.02 <= computePD s /\ computePD s <= 0.35.
Proof.
  unfold computePD. cbv zeta.
  apply (clamp_between PD_MIN PD_MAX). unfold PD_MIN, PD_MAX. lra.
Qed.

Lemma applyProfileModifier_bounds (pd modifier : Q) :
  0.02 <= applyProfileModifier pd modifier /\
  applyProfileModifier pd modifier <= 0.35.
Proof.
  unfold applyProfileModifier. cbv zeta.
  apply (clamp_between PD_MIN PD_MAX). unfold PD_MIN, PD_MAX. lra.
Qed.

(** C3.  On a trait vector with all five components in [1,5], every risk
    contribution lies in [0,1], the weighted risk lies in [0,1] and the PD
    lies in [0.02, 0.35].  The PD bound holds for every trait vector
    whatsoever, and a modified PD lies in [0.02, 0.35] for every PD and
    every modifier. *)
Theorem risk_model_bounds (s : OceanScores) :
  raw_scale s ->
  (forall t, 0 <= get (computeRiskContributions s) t /\
             get (computeRiskContributions s) t <= 1) /\
  (0 <= computeWeightedRisk s /\ computeWeightedRisk s <= 1) /\
  (0.02 <= computePD s /\ computePD s <= 0.35) /\
  (forall any : OceanScores, 0.02 <= computePD any /\ computePD any <= 0.35) /\
  (forall pd modifier : Q,
      0.02 <= applyProfileModifier pd modifier /\
      applyProfileModifier pd modifier <= 0.35).
Proof.
  intros Hs. repeat split.
  - apply computeRiskContributions_unit; assumption.
  - apply computeRiskContributions_unit; assumption.
  - apply computeWeightedRisk_unit; assumption.
  - apply computeWeightedRisk_unit; assumption.
  - apply computePD_bounds.
  - apply computePD_bounds.
  - apply computePD_bounds.
  - apply computePD_bounds.
  - apply applyProfileModifier_bounds.
  - apply applyProfileModifier_bounds.
Qed.

Lemma raw_scale_scenarioB : raw_scale scenarioB.
Proof. intros t; destruct t; vm_compute; split; discriminate. Defined.

Lemma risk_model_bounds_witness :
  raw_scale scenarioB /\
  (0 <= computeWeightedRisk scenarioB /\ computeWeightedRisk scenarioB <= 1) /\
  (0.02 <= computePD scenarioB /\ computePD scenarioB <= 0.35).
Proof.
  split; [exact raw_scale_scenarioB |].
  destruct (risk_model_bounds scenarioB raw_scale_scenarioB)
    as (_ & Hw & Hp & _).
  split; assumption.
Defined.

(* ================================================================== *)
(** * pd.ts: the two worked scenarios                                  *)
(* ================================================================== *)

(** C8, as stated, fails on scenario A: the weighted risk of
    {O:3, C:5, E:3, A:3, N:1} is not 0.08, the PD is not 0.0464 and the
    rating is not low. *)
Lemma scenarioA_not_as_stated :
  ~ weightedRisk (calculateFullPD scenarioA 0) == 0.08 /\
  ~ pdModified (calculateFullPD scenarioA 0) == 0.0464 /\
  riskRating (calculateFullPD scenarioA 0) <> low.
Proof.
  split; [| split].
  - intro H. vm_compute in H. discriminate H.
  - intro H. vm_compute in H. discriminate H.
  - intro H. vm_compute in H. discriminate H.
Qed.

(** C8, amended.  With modifier 0: on {O:3, C:5, E:3, A:3, N:1} the risk
    contributions of C and N are 0, the weighted risk is 0.20, the PD is
    0.086 and the rating is moderate; on {O:3, C:1, E:3, A:3, N:5} the risk
    contributions of C and N are 1, the weighted risk is 0.80, the PD is
    0.284 (below the 0.35 ceiling) and the rating is elevated. *)
Theorem calculateFullPD_scenarios :
  let a := calculateFullPD scenarioA 0 in
  let b := calculateFullPD scenarioB 0 in
  (score_C (riskContributions a) == 0 /\ score_N (riskContributions a) == 0 /\
   weightedRisk a == 0.20 /\ pdRaw a == 0.086 /\ pdModified a == 0.086 /\
   riskRating a = moderate) /\
  (score_C (riskContributions b) == 1 /\ score_N (riskContributions b) == 1 /\
   weightedRisk b == 0.80 /\ pdRaw b == 0.284 /\ pdModified b == 0.284 /\
   pdModified b < 0.35 /\ riskRating b = elevated).
Proof.
  cbv zeta. repeat split; vm_compute; reflexivity.
Qed.

(* ================================================================== *)
(** * loan.ts: the decision branches                                   *)
(* ================================================================== *)

(** C1.  With a consistency index [c] present: if [c.overall > 0.40] the
    decision is manual_review / pending_approval whatever the PD; otherwise
    [pd < 0.08] gives approved / approved; otherwise [pd < 0.18] gives
    pending_approval / pending_approval; otherwise manual_review /
    pending_approval. *)
Theorem determineLoanDecision_branches
    (pd : Q) (r : RiskRating) (c : ConsistencyIndex) :
  let res := determineLoanDecision pd r (Some c) in
  (0.40 < overall c ->
     decision res = manual_review /\ userFacingDecision res = pending_approval) /\
  (overall c <= 0.40 -> pd < 0.08 ->
     decision res = approved /\ userFacingDecision res = approved) /\
  (overall c <= 0.40 -> 0.08 <= pd -> pd < 0.18 ->
     decision res = pending_approval /\
     userFacingDecision res = pending_approval) /\
  (overall c <= 0.40 -> 0.18 <= pd ->
     decision res = manual_review /\ userFacingDecision res = pending_approval).
Proof.
  cbv zeta. unfold determineLoanDecision.
  unfold LOAN_THRESHOLDS_consistency_review_threshold,
    LOAN_THRESHOLDS_auto_approve_pd, LOAN_THRESHOLDS_manual_review_pd.
  qcases; simpl; repeat split; intros; try reflexivity; exfalso; lra.
Qed.

(** Scenario C: overall 0.45 with PD 0.05 is forced to manual review. *)
Lemma determineLoanDecision_branches_witness :
  0.40 < overall (consistency_with 0.45) /\
  decision (determineLoanDecision 0.05 low (Some (consistency_with 0.45)))
    = manual_review /\
  userFacingDecision (determineLoanDecision 0.05 low (Some (consistency_with 0.45)))
    = pending_approval.
Proof.
  split; [vm_compute; reflexivity |].
  apply (proj1 (determineLoanDecision_branches 0.05 low (consistency_with 0.45))).
  vm_compute; reflexivity.
Defined.

(** C2.  For every PD, every risk rating and every consistency index, absent
    or present, the user-facing decision is approved or pending_approval. *)
Theorem userFacingDecision_two_valued
    (pd : Q) (r : RiskRating) (c : option ConsistencyIndex) :
  userFacingDecision (determineLoanDecision pd r c) = approved \/
  userFacingDecision (determineLoanDecision pd r c) = pending_approval.
Proof.
  unfold determineLoanDecision.
  destruct (Qgtb _ _); [right; reflexivity |].
  destruct (Qltb pd _); [left; reflexivity |].
  destruct (Qltb pd _); right; reflexivity.
Qed.

(* ================================================================== *)
(** * blending.ts: the consistency index                               *)
(* ================================================================== *)

Lemma getConsistencyFlag_bands (o : Q) :
  (o < 0.20 -> getConsistencyFlag o = highly_consistent) /\
  (0.20 <= o -> o < 0.40 -> getConsistencyFlag o = normal_variance) /\
  (0.40 <= o -> o < 0.60 -> getConsistencyFlag o = moderate_discrepancy) /\
  (0.60 <= o -> getConsistencyFlag o = high_discrepancy).
Proof.
  unfold getConsistencyFlag, CONSISTENCY_THRESHOLDS_highly_consistent,
    CONSISTENCY_THRESHOLDS_normal_variance,
    CONSISTENCY_THRESHOLDS_moderate_discrepancy.
  qcases; repeat split; intros; try reflexivity; exfalso; lra.
Qed.

Lemma computeConsistencyIndex_overall (p1 : OceanScores) (p2 : NormalizedOceanScores) :
  let ci := computeConsistencyIndex p1 p2 in
  overall ci ==
  weighted_average (ci_C ci) (ci_N ci) (ci_A ci) (ci_O ci) (ci_E ci).
Proof.
  cbv zeta. unfold computeConsistencyIndex, weighted_average. cbv zeta.
  unfold traits. cbn [fold_left overall ci_C ci_N ci_A ci_O ci_E].
  rewrite !get_build. unfold TRAIT_WEIGHTS.
  cbn [score_O score_C score_E score_A score_N build].
  set (dO := Math_abs _). set (dC := Math_abs _). set (dE := Math_abs _).
  set (dA := Math_abs _). set (dN := Math_abs _).
  field.
Qed.

(** C4.  The per-trait values of the consistency index are the absolute
    differences between the normalized phase-1 score and the phase-2 score;
    [overall] is their weighted average with weights C 0.35, N 0.25, A 0.18,
    O 0.12, E 0.10; the flag follows the half-open bands below 0.20, 0.40,
    0.60; and inputs whose overall is 0.0, 0.199, 0.20, 0.399, 0.40, 0.599,
    0.60, 1.0 are flagged as listed. *)
Theorem computeConsistencyIndex_spec
    (p1 : OceanScores) (p2 : NormalizedOceanScores) :
  let ci := computeConsistencyIndex p1 p2 in
  (ci_O ci = Qabs (normalizeScore (score_O p1) - score_O p2) /\
   ci_C ci = Qabs (normalizeScore (score_C p1) - score_C p2) /\
   ci_E ci = Qabs (normalizeScore (score_E p1) - score_E p2) /\
   ci_A ci = Qabs (normalizeScore (score_A p1) - score_A p2) /\
   ci_N ci = Qabs (normalizeScore (score_N p1) - score_N p2)) /\
  overall ci ==
    weighted_average (ci_C ci) (ci_N ci) (ci_A ci) (ci_O ci) (ci_E ci) /\
  ((overall ci < 0.20 -> flag ci = highly_consistent) /\
   (0.20 <= overall ci -> overall ci < 0.40 -> flag ci = normal_variance) /\
   (0.40 <= overall ci -> overall ci < 0.60 -> flag ci = moderate_discrepancy) /\
   (0.60 <= overall ci -> flag ci = high_discrepancy)) /\
  (forall o expected,
     In (o, expected)
        [(0.0, highly_consistent); (0.199, highly_consistent);
         (0.20, normal_variance); (0.399, normal_variance);
         (0.40, moderate_discrepancy); (0.599, moderate_discrepancy);
         (0.60, high_discrepancy); (1.0, high_discrepancy)] ->
     overall (computeConsistencyIndex (uniform 1) (uniform o)) == o /\
     flag (computeConsistencyIndex (uniform 1) (uniform o)) = expected /\
     getConsistencyFlag o = expected).
Proof.
  cbv zeta. split; [| split; [| split]].
  - repeat split; reflexivity.
  - apply computeConsistencyIndex_overall.
  - apply (getConsistencyFlag_bands (overall (computeConsistencyIndex p1 p2))).
  - intros o expected Hin. simpl in Hin.
    repeat (destruct Hin as [Hin | Hin];
            [ injection Hin as <- <-; repeat split; vm_compute; reflexivity | ]).
    contradiction.
Qed.

Lemma computeConsistencyIndex_spec_witness :
  overall (computeConsistencyIndex scenarioB (uniform 0.5)) < 0.40 /\
  0.20 <= overall (computeConsistencyIndex scenarioB (uniform 0.5)) /\
  flag (computeConsistencyIndex scenarioB (uniform 0.5)) = normal_variance.
Proof.
  split; [vm_compute; reflexivity | split; [vm_compute; discriminate |]].
  destruct (computeConsistencyIndex_spec scenarioB (uniform 0.5))
    as (_ & _ & (_ & Hband & _) & _).
  apply Hband; [vm_compute; discriminate | vm_compute; reflexivity].
Defined.

(* ================================================================== *)
(** * ocean.ts: the trait to measure next                              *)
(* ================================================================== *)

(** One turn of the loop either takes the trait or leaves the state. *)
Lemma selectStep_cases (v : TraitVariances) (m : Q) (best t : Trait.t) :
  (m < get v t /\ selectStep v (m, best) t = (get v t, t)) \/
  (get v t <= m /\ selectStep v (m, best) t = (m, best)).
Proof.
  unfold selectStep. cbn [fst].
  destruct (Qgtb_spec (get v t) m); [left | right]; split; try reflexivity; lra.
Qed.

(** Runs the five turns of the loop, one case split per turn. *)
Ltac run_selectLoop v :=
  unfold selectHighestVarianceTrait, selectLoop, traits; cbn [fold_left];
  repeat match goal with
  | |- context [selectStep v (?m, ?best) ?t] =>
      let H := fresh "Hstep" in
      let E := fresh "Estep" in
      destruct (selectStep_cases v m best t) as [[H E] | [H E]];
      rewrite E; clear E
  end;
  cbn [snd].

Lemma selectHighestVarianceTrait_first_maximal (v : TraitVariances) :
  (exists t, -1 < get v t) ->
  first_maximal v (selectHighestVarianceTrait v).
Proof.
  intros [t0 Ht0]. unfold first_maximal.
  run_selectLoop v;
    (split; intros t'; destruct t'; cbn [position];
     try match goal with
         | |- (_ < _)%nat -> _ =>
             let Hpos := fresh "Hpos" in
             intros Hpos; try (exfalso; lia); clear Hpos
         end;
     try lra;
     exfalso; destruct t0; lra).
Qed.

(** With no variance above the initial -1, the loop never assigns and the
    initial trait C is returned. *)
Lemma selectHighestVarianceTrait_default (v : TraitVariances) :
  (forall t, get v t <= -1) -> selectHighestVarianceTrait v = Trait.C.
Proof.
  intros Hall.
  pose proof (Hall Trait.O). pose proof (Hall Trait.C).
  pose proof (Hall Trait.E). pose proof (Hall Trait.A).
  pose proof (Hall Trait.N).
  run_selectLoop v; try reflexivity; exfalso; lra.
Qed.

Lemma sum_nonneg (xs : list Q) (acc : Q) :
  (forall x, In x xs -> 0 <= x) -> 0 <= acc ->
  0 <= fold_left (fun s v => s + v) xs acc.
Proof.
  revert acc. induction xs as [| x xs IH]; intros acc Hxs Hacc; cbn [fold_left].
  - assumption.
  - apply IH.
    + intros y Hy. apply Hxs. right. exact Hy.
    + pose proof (Hxs x (or_introl eq_refl)). lra.
Qed.

(** [variance] never returns a negative number. *)
Lemma variance_nonneg (vs : list Q) : 0 <= variance vs.
Proof.
  unfold variance.
  destruct (Qltb (len vs) 2) eqn:Hlen; [lra |].
  destruct vs as [| v vs']; [discriminate Hlen |].
  cbv zeta. apply Qdiv_nonneg; [| apply len_cons_pos].
  unfold sum. apply sum_nonneg; [| lra].
  intros x Hx. apply in_map_iff in Hx. destruct Hx as (y & <- & _).
  apply Qsquare_nonneg.
Qed.

(** On the variances of any response history the result is the first
    maximal trait: the default is out of reach. *)
Lemma selectHighestVarianceTrait_measured (responses : list QuestionResponse) :
  first_maximal (computeTraitVariances responses)
    (selectHighestVarianceTrait (computeTraitVariances responses)).
Proof.
  apply selectHighestVarianceTrait_first_maximal.
  exists Trait.O. unfold computeTraitVariances. rewrite get_build.
  pose proof (variance_nonneg (traitScores responses Trait.O)). lra.
Qed.

(** C5, as stated, fails.  In the initial state all five variances are
    equal, yet the result is O, not the default C; and on a map with no
    variance above -1 the default C is returned although the five variances
    differ and C's is not maximal. *)
Lemma selectHighestVarianceTrait_default_not_as_stated :
  (all_equal initialVariances /\
   selectHighestVarianceTrait initialVariances = Trait.O /\
   selectHighestVarianceTrait initialVariances <> Trait.C) /\
  (selectHighestVarianceTrait belowSentinel = Trait.C /\
   ~ all_equal belowSentinel /\
   ~ (forall t, get belowSentinel t <= get belowSentinel Trait.C)).
Proof.
  split; [split; [| split] | split; [| split]].
  - intros t t'; destruct t, t'; reflexivity.
  - reflexivity.
  - discriminate.
  - reflexivity.
  - intro H. specialize (H Trait.O Trait.C). vm_compute in H. discriminate H.
  - intro H. specialize (H Trait.O). vm_compute in H. apply H. reflexivity.
Qed.

(** C5, amended.  On every variance map in which some variance exceeds -1
    (so on every map of non-negative variances) the result is the first
    trait, in the order O, C, E, A, N, whose variance is maximal; when all
    five variances are equal the result is therefore O. *)
Theorem selectHighestVarianceTrait_argmax (v : TraitVariances) :
  (exists t, -1 < get v t) ->
  first_maximal v (selectHighestVarianceTrait v) /\
  (all_equal v -> selectHighestVarianceTrait v = Trait.O).
Proof.
  intros Hv.
  pose proof (selectHighestVarianceTrait_first_maximal v Hv) as Hfm.
  split; [exact Hfm |].
  intros Heq. destruct Hfm as [_ Hfirst].
  destruct (selectHighestVarianceTrait v) eqn:Er; try reflexivity;
    exfalso;
    assert (Hlt : get v Trait.O < get v (selectHighestVarianceTrait v))
      by (rewrite Er; apply Hfirst; cbn [position]; lia);
    rewrite Er in Hlt;
    pose proof (Heq Trait.O (selectHighestVarianceTrait v)) as He;
    rewrite Er in He; lra.
Qed.

Lemma selectHighestVarianceTrait_argmax_witness :
  (exists t, -1 < get initialVariances t) /\
  first_maximal initialVariances (selectHighestVarianceTrait initialVariances).
Proof.
  assert (H : exists t, -1 < get initialVariances t)
    by (exists Trait.O; vm_compute; reflexivity).
  split; [exact H |].
  exact (proj1 (selectHighestVarianceTrait_argmax initialVariances H)).
Defined.

(* ================================================================== *)
(** * ocean.ts: the stopping rule                                      *)
(* ================================================================== *)

Lemma allBelowThreshold_iff (v : TraitVariances) (thr : Q) :
  forallb (fun x => Qltb x thr) (values v) = true <->
  (forall t, get v t < thr).
Proof.
  unfold values. cbn [forallb]. rewrite !andb_true_iff. split.
  - intros (HO & HC & HE & HA & HN & _) t.
    destruct t; cbn [get];
      match goal with
      | |- ?x < thr => destruct (Qltb_spec x thr); [assumption | discriminate]
      end.
  - intros H. repeat split;
      match goal with
      | |- Qltb ?x thr = true => destruct (Qltb_spec x thr); [reflexivity |]
      | |- true = true => reflexivity
      end.
    + exfalso. apply n. apply (H Trait.O).
    + exfalso. apply n. apply (H Trait.C).
    + exfalso. apply n. apply (H Trait.E).
    + exfalso. apply n. apply (H Trait.A).
    + exfalso. apply n. apply (H Trait.N).
Qed.

Lemma isAssessmentComplete_cases
    (v : TraitVariances) (k thr mn mx : Q) :
  (mx <= k /\ isAssessmentComplete v k thr mn mx = true) \/
  (k < mx /\ k < mn /\ isAssessmentComplete v k thr mn mx = false) \/
  (k < mx /\ mn <= k /\
   isAssessmentComplete v k thr mn mx
   = forallb (fun x => Qltb x thr) (values v)).
Proof.
  unfold isAssessmentComplete.
  destruct (Qgeb_spec k mx); [left; split; [assumption | reflexivity] |].
  right. destruct (Qltb_spec k mn); [left | right];
    repeat split; try reflexivity; lra.
Qed.

(** C6.  The stopping rule is true when the count has reached the maximum;
    otherwise false when the count is below the minimum; otherwise true
    exactly when every trait's variance is strictly below the threshold.
    It is monotone: true at [(v, k)] with [k <= mx] implies true at
    [(v', k')] for every [k' >= k] and every [v'] trait-wise at most [v]. *)
Theorem isAssessmentComplete_spec
    (v : TraitVariances) (k thr mn mx : Q) :
  (mx <= k -> isAssessmentComplete v k thr mn mx = true) /\
  (k < mx -> k < mn -> isAssessmentComplete v k thr mn mx = false) /\
  (k < mx -> mn <= k ->
     (isAssessmentComplete v k thr mn mx = true <-> forall t, get v t < thr)) /\
  (forall (v' : TraitVariances) (k' : Q),
     k <= mx ->
     isAssessmentComplete v k thr mn mx = true ->
     k <= k' -> variances_le v' v ->
     isAssessmentComplete v' k' thr mn mx = true).
Proof.
  split; [| split; [| split]].
  - intros H.
    destruct (isAssessmentComplete_cases v k thr mn mx)
      as [[_ E] | [(H1 & _) | (H1 & _)]]; [exact E | lra | lra].
  - intros H H'.
    destruct (isAssessmentComplete_cases v k thr mn mx)
      as [[H1 _] | [(_ & _ & E) | (_ & H1 & _)]]; [lra | exact E | lra].
  - intros H H'.
    destruct (isAssessmentComplete_cases v k thr mn mx)
      as [[H1 _] | [(_ & H1 & _) | (_ & _ & E)]]; [lra | lra |].
    rewrite E. apply allBelowThreshold_iff.
  - intros v' k' _ Htrue Hk Hv.
    destruct (isAssessmentComplete_cases v' k' thr mn mx)
      as [[_ E'] | [(Hmx' & Hmn' & _) | (Hmx' & Hmn' & E')]];
      [exact E' | exfalso | rewrite E'].
    + destruct (isAssessmentComplete_cases v k thr mn mx)
        as [[H1 _] | [(_ & _ & E) | (_ & H1 & _)]];
        [lra | congruence | lra].
    + destruct (isAssessmentComplete_cases v k thr mn mx)
        as [[H1 _] | [(_ & _ & E) | (_ & _ & E)]];
        [lra | congruence |].
      rewrite E in Htrue. apply allBelowThreshold_iff.
      intros t. apply Qle_lt_trans with (get v t); [apply Hv |].
      revert t. apply allBelowThreshold_iff. exact Htrue.
Qed.

Lemma isAssessmentComplete_spec_witness :
  8 <= 15 /\
  isAssessmentComplete (uniform 0.1) 8 0.3 8 15 = true /\
  8 <= 9 /\ variances_le (uniform 0.05) (uniform 0.1) /\
  isAssessmentComplete (uniform 0.05) 9 0.3 8 15 = true.
Proof.
  assert (Hv : variances_le (uniform 0.05) (uniform 0.1))
    by (intros t; destruct t; vm_compute; discriminate).
  assert (H1 : 8 <= 15) by (vm_compute; discriminate).
  assert (H2 : 8 <= 9) by (vm_compute; discriminate).
  assert (H3 : isAssessmentComplete (uniform 0.1) 8 0.3 8 15 = true)
    by reflexivity.
  split; [exact H1 |]. split; [exact H3 |]. split; [exact H2 |].
  split; [exact Hv |].
  exact (proj2 (proj2 (proj2
           (isAssessmentComplete_spec (uniform 0.1) 8 0.3 8 15)))
           (uniform 0.05) 9 H1 H3 H2 Hv).
Defined.

(* ================================================================== *)
(** * Arithmetic with overflow                                         *)
(* ================================================================== *)

Lemma OVERFLOW_large : 4294967296 < OVERFLOW.
Proof. vm_compute. reflexivity. Qed.

Lemma fin_cases (q : Q) :
  (OVERFLOW <= q /\ fin q = PosInfinity) \/
  (q <= - OVERFLOW /\ fin q = NegInfinity) \/
  (- OVERFLOW < q /\ q < OVERFLOW /\ fin q = Finite q).
Proof.
  unfold fin. pose proof OVERFLOW_large as HO.
  destruct (Qle_bool OVERFLOW q) eqn:E1.
  - left. split; [now apply Qle_bool_iff | reflexivity].
  - assert (H1 : ~ OVERFLOW <= q) by (rewrite <- Qle_bool_iff; congruence).
    destruct (Qle_bool q (- OVERFLOW)) eqn:E2.
    + right. left. split; [now apply Qle_bool_iff | reflexivity].
    + assert (H2 : ~ q <= - OVERFLOW) by (rewrite <- Qle_bool_iff; congruence).
      right. right. repeat split; lra.
Qed.

Lemma fin_small (q : Q) :
  - OVERFLOW < q -> q < OVERFLOW -> fin q = Finite q.
Proof.
  intros Hlo Hhi.
  destruct (fin_cases q) as [[H _] | [[H _] | (_ & _ & E)]]; [lra | lra | exact E].
Qed.

Lemma fin_not_NaN (q : Q) : fin q <> NaN.
Proof.
  destruct (fin_cases q) as [[_ E] | [[_ E] | (_ & _ & E)]];
    rewrite E; discriminate.
Qed.

Lemma fin_nonneg (q : Q) : 0 <= q -> nonneg_number (fin q).
Proof.
  intros Hq. pose proof OVERFLOW_large as HO.
  destruct (fin_cases q) as [[_ E] | [[H _] | (_ & _ & E)]]; [| lra |].
  - left. exact E.
  - right. exists q. split; [exact E | exact Hq].
Qed.

Lemma fin_unit (q : Q) : 0 <= q -> q <= 1 -> unit_number (fin q).
Proof.
  intros H0 H1. pose proof OVERFLOW_large as HO.
  exists q. split; [apply fin_small; lra | split; assumption].
Qed.

Lemma unit_not_NaN (a : jsnum) : unit_number a -> a <> NaN.
Proof. intros (q & -> & _). discriminate. Qed.

Lemma nonneg_not_NaN (a : jsnum) : nonneg_number a -> a <> NaN.
Proof. intros [-> | (q & -> & _)]; discriminate. Qed.

(** Adding a finite number never produces [NaN]. *)
Lemma jadd_finite_not_NaN (a : jsnum) (y : Q) :
  a <> NaN -> jadd a (Finite y) <> NaN.
Proof.
  destruct a as [x | | |]; cbn [jadd]; intros H;
    [apply fin_not_NaN | discriminate | discriminate | contradiction].
Qed.

Lemma jadd_nonneg (a b : jsnum) :
  nonneg_number a -> nonneg_number b -> nonneg_number (jadd a b).
Proof.
  intros [-> | (x & -> & Hx)] [-> | (y & -> & Hy)]; cbn [jadd];
    try (left; reflexivity).
  apply fin_nonneg. lra.
Qed.

(** Dividing by a finite number other than zero never produces [NaN]. *)
Lemma jdiv_finite_not_NaN (a : jsnum) (y : Q) :
  a <> NaN -> ~ y == 0 -> jdiv a (Finite y) <> NaN.
Proof.
  intros Ha Hy. destruct a as [x | | |]; cbn [jdiv]; [| | | contradiction].
  - destruct (Qeqb_spec y 0); [contradiction | apply fin_not_NaN].
  - destruct (Qle_bool 0 y); discriminate.
  - destruct (Qltb y 0); discriminate.
Qed.

Lemma jdiv_nonneg (a : jsnum) (y : Q) :
  nonneg_number a -> 0 < y -> nonneg_number (jdiv a (Finite y)).
Proof.
  intros [-> | (x & -> & Hx)] Hy; cbn [jdiv].
  - destruct (Qle_bool 0 y) eqn:E; [left; reflexivity |].
    assert (~ 0 <= y) by (rewrite <- Qle_bool_iff; congruence). lra.
  - destruct (Qeqb_spec y 0); [lra |].
    apply fin_nonneg. apply Qdiv_nonneg; assumption.
Qed.

(** A ratio of two counts, the first at most the second. *)
Lemma jdiv_ratio_unit (x y : Q) :
  0 <= x -> x <= y -> 0 < y -> unit_number (jdiv (Finite x) (Finite y)).
Proof.
  intros Hx Hxy Hy. cbn [jdiv]. destruct (Qeqb_spec y 0); [lra |].
  apply fin_unit.
  - apply Qdiv_nonneg; assumption.
  - apply Qle_shift_div_r; [exact Hy | lra].
Qed.

Lemma jmul_const_not_NaN (c : Q) (a : jsnum) :
  ~ c == 0 -> a <> NaN -> jmul (Finite c) a <> NaN.
Proof.
  intros Hc Ha. destruct a as [x | | |]; cbn [jmul]; [| | | contradiction].
  - apply fin_not_NaN.
  - destruct (Qeqb_spec c 0); [contradiction |].
    destruct (Qltb 0 c); discriminate.
  - destruct (Qeqb_spec c 0); [contradiction |].
    destruct (Qltb c 0); discriminate.
Qed.

(** A weight of [0,1] times a number of [0,1]. *)
Lemma jmul_weight_unit (c : Q) (a : jsnum) :
  0 <= c -> c <= 1 -> unit_number a ->
  exists q, jmul (Finite c) a = Finite q /\ 0 <= q /\ q <= 1.
Proof.
  intros Hc0 Hc1 (x & -> & Hx0 & Hx1). cbn [jmul].
  apply fin_unit; nra.
Qed.

Lemma jsquare_nonneg (a : jsnum) : a <> NaN -> nonneg_number (jsquare a).
Proof.
  intros Ha. unfold jsquare. destruct a as [x | | |]; cbn [jmul];
    [| left; reflexivity | left; reflexivity | contradiction].
  apply fin_nonneg. nra.
Qed.

Lemma jsub_finite_not_NaN (x : Q) (b : jsnum) :
  b <> NaN -> jsub (Finite x) b <> NaN.
Proof.
  intros Hb. unfold jsub. destruct b as [y | | |]; cbn [jneg jadd];
    [apply fin_not_NaN | discriminate | discriminate | contradiction].
Qed.

Lemma jsub_finite_finite (x y : Q) : jsub (Finite x) (Finite y) <> NaN.
Proof. apply jsub_finite_not_NaN. discriminate. Qed.

(** [clamp01] returns a number of [0,1] on everything but [NaN]. *)
Lemma clamp01_unit (a : jsnum) : a <> NaN -> unit_number (clamp01 a).
Proof.
  intros Ha. unfold clamp01.
  destruct a as [x | | |]; [| | | contradiction].
  - cbn [jmin jlt].
    destruct (Qltb_spec x 1); cbn [jmax jlt].
    + destruct (Qltb_spec 0 x).
      * exists x. repeat split; lra.
      * exists 0. repeat split; lra.
    + destruct (Qltb_spec 0 1) as [_ | H]; [| lra].
      exists 1. repeat split; lra.
  - cbn. exists 1. repeat split; lra.
  - cbn. exists 0. repeat split; lra.
Qed.


(** The weighted blends of the five scores: a first term that is any number
    but [NaN], then terms of [0,1]. *)
Lemma weighted3_unit (c1 c2 c3 : Q) (a b c : jsnum) :
  ~ c1 == 0 -> 0 <= c2 -> c2 <= 1 -> 0 <= c3 -> c3 <= 1 ->
  a <> NaN -> unit_number b -> unit_number c ->
  unit_number (clamp01 (Finite c1 * a + Finite c2 * b + Finite c3 * c)%js).
Proof.
  intros Hc1 H20 H21 H30 H31 Ha Hb Hc. apply clamp01_unit.
  destruct (jmul_weight_unit c2 b H20 H21 Hb) as (q2 & -> & _).
  destruct (jmul_weight_unit c3 c H30 H31 Hc) as (q3 & -> & _).
  apply jadd_finite_not_NaN, jadd_finite_not_NaN, jmul_const_not_NaN;
    assumption.
Qed.

Lemma weighted2_unit (c1 c2 : Q) (a b : jsnum) :
  ~ c1 == 0 -> 0 <= c2 -> c2 <= 1 ->
  a <> NaN -> unit_number b ->
  unit_number (clamp01 (Finite c1 * a + Finite c2 * b)%js).
Proof.
  intros Hc1 H20 H21 Ha Hb. apply clamp01_unit.
  destruct (jmul_weight_unit c2 b H20 H21 Hb) as (q2 & -> & _).
  apply jadd_finite_not_NaN, jmul_const_not_NaN; assumption.
Qed.

(** A running sum of finite numbers is never [NaN]. *)
Lemma fold_finite_not_NaN {X : Type} (g : X -> jsnum) (xs : list X) :
  (forall x, exists q, g x = Finite q) ->
  forall acc, acc <> NaN ->
    fold_left (fun s x => (s + g x)%js) xs acc <> NaN.
Proof.
  intros Hg. induction xs as [| x xs IH]; intros acc Hacc; cbn [fold_left].
  - exact Hacc.
  - apply IH. destruct (Hg x) as [q ->]. apply jadd_finite_not_NaN. exact Hacc.
Qed.

(** A running sum of numbers that are not negative is not negative. *)
Lemma fold_nonneg {X : Type} (g : X -> jsnum) (xs : list X) :
  (forall x, nonneg_number (g x)) ->
  forall acc, nonneg_number acc ->
    nonneg_number (fold_left (fun s x => (s + g x)%js) xs acc).
Proof.
  intros Hg. induction xs as [| x xs IH]; intros acc Hacc; cbn [fold_left].
  - exact Hacc.
  - apply IH. apply jadd_nonneg; [exact Hacc | apply Hg].
Qed.

Lemma fold_left_mapped {X Y Z : Type} (f : Z -> Y -> Z) (g : X -> Y)
    (xs : list X) (acc : Z) :
  fold_left f (map g xs) acc = fold_left (fun s x => f s (g x)) xs acc.
Proof.
  revert acc. induction xs as [| x xs IH]; intros acc; [reflexivity |].
  cbn [map fold_left]. apply IH.
Qed.

Lemma jsum_map_Finite_not_NaN (xs : list Q) : jsum (map Finite xs) <> NaN.
Proof.
  unfold jsum. rewrite fold_left_mapped.
  apply (fold_finite_not_NaN Finite); [intros x; eexists; reflexivity |].
  discriminate.
Qed.

Lemma len_pos_neq {X : Type} (x : X) (xs : list X) : ~ len (x :: xs) == 0.
Proof. pose proof (len_cons_pos x xs). lra. Qed.

Lemma len_filter_le {X : Type} (f : X -> bool) (xs : list X) :
  len (filter f xs) <= len xs.
Proof.
  unfold len. rewrite <- Zle_Qle.
  assert (H : (List.length (filter f xs) <= List.length xs)%nat).
  { induction xs as [| x xs IH]; [apply le_n |].
    cbn [filter]. destruct (f x); cbn [List.length]; lia. }
  lia.
Qed.

Lemma len_nonneg' {X : Type} (xs : list X) : 0 <= len xs.
Proof.
  unfold len. change 0 with (inject_Z 0). rewrite <- Zle_Qle. lia.
Qed.

Lemma filter_twice {X : Type} (f g : X -> bool) (xs : list X) :
  filter g (filter f xs) = filter (fun x => f x && g x) xs.
Proof.
  induction xs as [| x xs IH]; [reflexivity |].
  cbn [filter]. destruct (f x); cbn [filter andb]; [| exact IH].
  destruct (g x); [f_equal |]; exact IH.
Qed.

Lemma len_cons {X : Type} (x : X) (xs : list X) : len (x :: xs) == len xs + 1.
Proof.
  unfold len. cbn [List.length].
  change 1 with (inject_Z 1). rewrite <- inject_Z_plus.
  replace (Z.of_nat (S (List.length xs))) with (Z.of_nat (List.length xs) + 1)%Z
    by lia.
  reflexivity.
Qed.

Lemma len_map {X Y : Type} (f : X -> Y) (xs : list X) :
  len (map f xs) = len xs.
Proof. unfold len. rewrite length_map. reflexivity. Qed.

Lemma fold_sum_shift (xs : list Q) (acc : Q) :
  fold_left (fun s v => s + v) xs acc == acc + sum xs.
Proof.
  unfold sum. revert acc. induction xs as [| x xs IH]; intros acc; cbn [fold_left].
  - ring.
  - rewrite (IH (acc + x)), (IH (0 + x)). ring.
Qed.

Lemma sum_cons (x : Q) (xs : list Q) : sum (x :: xs) == x + sum xs.
Proof.
  unfold sum at 1. cbn [fold_left]. rewrite fold_sum_shift. ring.
Qed.

Lemma sum_abs_nonneg (xs : list Q) : 0 <= sum (map Qabs xs).
Proof.
  unfold sum. apply sum_nonneg; [| lra].
  intros x Hx. apply in_map_iff in Hx. destruct Hx as (y & <- & _).
  apply Qabs_nonneg.
Qed.

Lemma HALF_RANGE_small : HALF_RANGE < OVERFLOW.
Proof. reflexivity. Qed.

Lemma sum_in_range_lt (xs : list Q) :
  sum_in_range xs -> sum (map Qabs xs) < OVERFLOW.
Proof. unfold sum_in_range. pose proof HALF_RANGE_small. lra. Qed.

Lemma sum_in_range_cons (x : Q) (xs : list Q) :
  sum_in_range (x :: xs) -> Qabs x < OVERFLOW /\ sum_in_range xs.
Proof.
  pose proof HALF_RANGE_small as Hhalf.
  unfold sum_in_range. intros H1.
  change (map Qabs (x :: xs)) with (Qabs x :: map Qabs xs) in H1.
  rewrite sum_cons in H1.
  pose proof (sum_abs_nonneg xs). pose proof (Qabs_nonneg x).
  split; lra.
Qed.

(** Within range, the running sum is the exact one. *)
Lemma fold_in_range (xs : list Q) :
  forall acc,
    Qabs acc + sum (map Qabs xs) < OVERFLOW ->
    exists s, fold_left (fun a v => (a + Finite v)%js) xs (Finite acc) = Finite s /\
              Qabs s <= Qabs acc + sum (map Qabs xs).
Proof.
  induction xs as [| x xs IH]; intros acc Hr; cbn [fold_left map].
  - exists acc. split; [reflexivity |]. change (sum []) with 0. lra.
  - change (map Qabs (x :: xs)) with (Qabs x :: map Qabs xs) in Hr.
    rewrite sum_cons in Hr.
    assert (Hgoal : sum (Qabs x :: map Qabs xs) == Qabs x + sum (map Qabs xs))
      by apply sum_cons.
    pose proof (Qabs_triangle acc x) as Htri.
    pose proof (sum_abs_nonneg xs) as Hnn.
    assert (Hfin : fin (acc + x) = Finite (acc + x)).
    { apply fin_small.
      - pose proof (Qle_Qabs (- (acc + x))) as H1. rewrite Qabs_opp in H1. lra.
      - pose proof (Qle_Qabs (acc + x)) as H1. lra. }
    cbn [jadd]. rewrite Hfin.
    destruct (IH (acc + x)) as (s & Hs & Hb); [lra |].
    exists s. split; [exact Hs | rewrite Hgoal; lra].
Qed.

Lemma jsum_in_range (xs : list Q) :
  sum_in_range xs ->
  exists s, jsum (map Finite xs) = Finite s /\ Qabs s <= sum (map Qabs xs).
Proof.
  intros Hr. apply sum_in_range_lt in Hr.
  unfold jsum. rewrite fold_left_mapped.
  destruct (fold_in_range xs 0) as (s & Hs & Hb).
  - change (Qabs 0) with 0. lra.
  - exists s. split; [exact Hs |]. change (Qabs 0) with 0 in Hb. lra.
Qed.

(** Within range the mean of a non-empty list is a finite number. *)
Lemma mean_in_range (x : Q) (xs : list Q) :
  sum_in_range (x :: xs) ->
  exists m, (jsum (map Finite (x :: xs)) / jlen (x :: xs))%js = Finite m.
Proof.
  intros Hr. destruct (jsum_in_range _ Hr) as (s & -> & Hb).
  apply sum_in_range_lt in Hr. unfold jlen. cbn [jdiv].
  destruct (Qeqb_spec (len (x :: xs)) 0) as [Hz | _];
    [exfalso; exact (len_pos_neq x xs Hz) |].
  exists (s / len (x :: xs)). apply fin_small.
  - assert (H : - (s / len (x :: xs)) < OVERFLOW); [| lra].
    setoid_replace (- (s / len (x :: xs))) with ((- s) / len (x :: xs))
      by (field; apply len_pos_neq).
    apply Qle_lt_trans with (sum (map Qabs (x :: xs))); [| exact Hr].
    apply Qle_shift_div_r; [apply len_cons_pos |].
    pose proof (len_cons x xs) as Hl. pose proof (len_nonneg' xs) as Hn.
    pose proof (sum_abs_nonneg (x :: xs)) as Hnn.
    pose proof (Qle_Qabs (- s)) as Ha. rewrite Qabs_opp in Ha.
    set (n := len (x :: xs)) in *. set (B := sum (map Qabs (x :: xs))) in *.
    assert (Hn1 : 1 <= n) by lra. clearbody n B. nra.
  - apply Qle_lt_trans with (sum (map Qabs (x :: xs))); [| exact Hr].
    apply Qle_shift_div_r; [apply len_cons_pos |].
    pose proof (len_cons x xs) as Hl. pose proof (len_nonneg' xs) as Hn.
    pose proof (sum_abs_nonneg (x :: xs)) as Hnn.
    pose proof (Qle_Qabs s) as Ha.
    set (n := len (x :: xs)) in *. set (B := sum (map Qabs (x :: xs))) in *.
    assert (Hn1 : 1 <= n) by lra. clearbody n B. nra.
Qed.

(** Within range the banking intervals are the exact gaps. *)
Lemma bankingIntervals_in_range (events : list BankingEvent) :
  sum_in_range (timestampGaps events) ->
  bankingIntervals events = map Finite (timestampGaps events).
Proof.
  induction events as [| a rest IH]; intros Hr; [reflexivity |].
  destruct rest as [| b rest']; [reflexivity |].
  change (timestampGaps (a :: b :: rest'))
    with ((timestamp_ms b - timestamp_ms a) :: timestampGaps (b :: rest')) in *.
  change (bankingIntervals (a :: b :: rest'))
    with ((Finite (timestamp_ms b) - Finite (timestamp_ms a))%js
          :: bankingIntervals (b :: rest')).
  destruct (sum_in_range_cons _ _ Hr) as [Hd Hrest].
  rewrite (IH Hrest). cbn [map]. f_equal.
  unfold jsub. cbn [jneg jadd]. apply fin_small.
  - pose proof (Qle_Qabs (- (timestamp_ms b - timestamp_ms a))) as H1.
    rewrite Qabs_opp in H1. unfold Qminus in *. lra.
  - pose proof (Qle_Qabs (timestamp_ms b - timestamp_ms a)) as H1.
    unfold Qminus in *. lra.
Qed.

(** A sum of numbers that are at most 1 each, over an array, cannot reach
    [Infinity], so it is never [NaN]. *)
Lemma fold_atmost1_not_NaN (es : list jsnum) :
  (forall e, In e es -> e = NegInfinity \/ exists q, e = Finite q /\ q <= 1) ->
  forall (acc : jsnum) (b : Q),
    (acc = NegInfinity \/ exists q, acc = Finite q /\ q <= b) ->
    b + len es < OVERFLOW ->
    fold_left (fun s v => (s + v)%js) es acc <> NaN.
Proof.
  induction es as [| e es IH]; intros Hes acc b Hacc Hb; cbn [fold_left].
  - destruct Hacc as [-> | (q & -> & _)]; discriminate.
  - pose proof (len_cons e es) as Hl. pose proof (len_nonneg' es) as Hn.
    apply (IH (fun e' He' => Hes e' (or_intror He')) _ (b + 1)); [| lra].
    destruct (Hes e (or_introl eq_refl)) as [-> | (x & -> & Hx)];
      destruct Hacc as [-> | (q & -> & Hq)]; cbn [jadd];
      try (left; reflexivity).
    destruct (fin_cases (q + x)) as [[H _] | [[_ E] | (_ & _ & E)]];
      [lra | left; exact E | right; exists (q + x); split; [exact E | lra]].
Qed.

Section BehavioralFinite.

Variable sqrtQ : Q -> Q.

Lemma Math_sqrt_not_NaN (a : jsnum) :
  nonneg_number a -> Math_sqrt sqrtQ a <> NaN.
Proof.
  intros [-> | (x & -> & Hx)]; cbn [Math_sqrt]; [discriminate |].
  destruct (Qltb_spec x 0); [lra | discriminate].
Qed.

Lemma half_unit : unit_number (Finite 0.5).
Proof. exists 0.5. repeat split; lra. Qed.

Lemma computeBartScore_unit (cargoLoads : list CargoLoad) :
  unit_number (computeBartScore cargoLoads).
Proof.
  unfold computeBartScore. cbv zeta.
  destruct (filter _ cargoLoads) as [| c cs]; [apply half_unit |].
  destruct (Qeq_bool _ 0); [apply half_unit |].
  apply clamp01_unit.
  apply jdiv_finite_not_NaN; [| unfold SUPPLY_RUN_CONFIG_max_cargo; lra].
  unfold jlen. apply jdiv_finite_not_NaN; [| apply len_pos_neq].
  apply (fold_finite_not_NaN (fun c => Finite (crates c)));
    [intros x; eexists; reflexivity | discriminate].
Qed.

Lemma computeTapDeliberation_unit (velocities : list Q) :
  unit_number (computeTapDeliberation velocities).
Proof.
  unfold computeTapDeliberation.
  destruct (Qeq_bool _ 0); [apply half_unit |]. cbv zeta.
  repeat match goal with
         | |- context [jlt ?a ?b] => destruct (jlt a b)
         end;
    eexists; (split; [reflexivity | split; lra]).
Qed.

Lemma computePostLossChange_unit (lossEvents : list LossEvent) (vs : list Q) :
  unit_number (computePostLossChange lossEvents vs).
Proof.
  unfold computePostLossChange.
  destruct lossEvents as [| e es]; [eexists; split; [reflexivity | split; lra] |].
  destruct (Qeq_bool _ 0); [eexists; split; [reflexivity | split; lra] |].
  cbv zeta. apply clamp01_unit.
  unfold jlen. apply jdiv_finite_not_NaN; [| apply len_pos_neq].
  apply (fold_finite_not_NaN (fun e => jabs (Finite (behavior_delta e))));
    [intros x; eexists; reflexivity | discriminate].
Qed.

Lemma computeTipRate_unit (events : list SharingEvent) :
  unit_number (computeTipRate events).
Proof.
  unfold computeTipRate.
  destruct events as [| e es]; [apply half_unit |].
  destruct (Qeq_bool _ 0); [apply half_unit |].
  cbv zeta. apply clamp01_unit.
  unfold jlen. apply jdiv_finite_not_NaN; [| apply len_pos_neq].
  apply (fold_finite_not_NaN (fun e => Finite (reward_split e)));
    [intros x; eexists; reflexivity | discriminate].
Qed.

Lemma computeSharingRate_unit (events : list SharingEvent) :
  unit_number (computeSharingRate events).
Proof.
  unfold computeSharingRate.
  destruct (Qeq_bool (len events) 0); [apply half_unit |]. cbv zeta.
  destruct (Qgtb_spec (len (filter (fun e => offered e) events)) 0) as [Hpos | _];
    [| apply half_unit].
  unfold jlen. apply jdiv_ratio_unit; [apply len_nonneg' | | exact Hpos].
  rewrite <- filter_twice. apply len_filter_le.
Qed.

Lemma computeHelpAcceptance_unit (events : list SharingEvent) :
  unit_number (computeHelpAcceptance events).
Proof.
  unfold computeHelpAcceptance.
  destruct (Qeq_bool (len events) 0); [apply half_unit |]. cbv zeta.
  destruct (filter (fun e => offered e) events) as [| h hs];
    [apply half_unit |].
  destruct (Qeq_bool _ 0); [apply half_unit |].
  unfold jlen. apply jdiv_ratio_unit;
    [apply len_nonneg' | apply len_filter_le | apply len_cons_pos].
Qed.

Lemma computeShortcutUsage_unit (paths : list PathRecord) :
  unit_number (computeShortcutUsage paths).
Proof.
  unfold computeShortcutUsage.
  destruct paths as [| p ps]; [apply half_unit |].
  destruct (Qeq_bool _ 0); [apply half_unit |]. cbv zeta.
  apply clamp01_unit. unfold jlen.
  apply jdiv_finite_not_NaN; [discriminate | apply len_pos_neq].
Qed.

Lemma computeMultiOrderRate_unit (counts : list Q) :
  unit_number (computeMultiOrderRate counts).
Proof.
  unfold computeMultiOrderRate.
  destruct counts as [| c cs]; [apply half_unit |].
  destruct (Qeq_bool _ 0); [apply half_unit |]. cbv zeta.
  unfold jlen. apply jdiv_ratio_unit;
    [apply len_nonneg' | apply len_filter_le | apply len_cons_pos].
Qed.

Lemma computePathEfficiency_not_NaN (paths : list PathRecord) :
  array_length_ok paths -> computePathEfficiency paths <> NaN.
Proof.
  intros Hlen. unfold computePathEfficiency.
  destruct paths as [| p ps]; [discriminate |].
  destruct (Qeq_bool _ 0); [discriminate |]. cbv zeta.
  unfold jlen, jsum.
  apply jdiv_finite_not_NaN.
  - apply (fold_atmost1_not_NaN _) with (b := 0).
    + intros e He. apply in_map_iff in He. destruct He as (r & <- & _).
      destruct (Qgtb_spec (actual_dist r) 0) as [Hact | _];
        [| right; exists 0; split; [reflexivity | lra]].
      cbn [jdiv]. destruct (Qeqb_spec (actual_dist r) 0); [lra |].
      destruct (fin_cases (optimal_dist r / actual_dist r))
        as [[_ E] | [[_ E] | (_ & _ & E)]]; rewrite E.
      * right. exists 1. split; [reflexivity | lra].
      * left. reflexivity.
      * right. cbn [jmin jlt].
        destruct (Qltb_spec (optimal_dist r / actual_dist r) 1);
          eexists; (split; [reflexivity | lra]).
    + right. exists 0. split; [reflexivity | lra].
    + unfold array_length_ok in Hlen. pose proof OVERFLOW_large.
      rewrite len_map. lra.
  - rewrite len_map. apply (len_pos_neq p ps).
Qed.

(** The standard deviation around a finite mean is never [NaN]. *)
Lemma std_not_NaN {X : Type} (g : X -> jsnum) (xs : list X) (n m : Q) :
  (forall y, g y <> NaN) -> 0 < n ->
  Math_sqrt sqrtQ
    (fold_left (fun s v => s + jsquare (g v - Finite m)) xs (Finite 0)
     / Finite n)%js <> NaN.
Proof.
  intros Hg Hn. apply Math_sqrt_not_NaN.
  apply jdiv_nonneg; [| exact Hn].
  apply (fold_nonneg (fun v => jsquare (g v - Finite m)%js)).
  - intros v. apply jsquare_nonneg. unfold jsub. cbn [jneg].
    apply jadd_finite_not_NaN. apply Hg.
  - right. exists 0. split; [reflexivity | lra].
Qed.

Lemma computeHesitationPattern_unit (velocities : list Q) :
  sum_in_range velocities ->
  unit_number (computeHesitationPattern sqrtQ velocities).
Proof.
  intros Hr. unfold computeHesitationPattern.
  destruct (Qltb (len velocities) 3) eqn:Hlen; [apply half_unit |].
  destruct velocities as [| v vs]; [discriminate Hlen |].
  destruct (mean_in_range v vs Hr) as [m Hm]. cbv zeta. rewrite Hm.
  apply clamp01_unit. apply jdiv_finite_not_NaN; [| lra].
  unfold jgt. cbn [jlt].
  destruct (Qltb_spec 0 m) as [Hpos | _]; [| discriminate].
  apply jdiv_finite_not_NaN; [| lra].
  unfold jlen.
  apply (std_not_NaN Finite (v :: vs) _ m); [discriminate | apply len_cons_pos].
Qed.

Lemma computeBankingRegularity_unit (events : list BankingEvent) (d : Q) :
  sum_in_range (timestampGaps events) ->
  unit_number (computeBankingRegularity sqrtQ events d).
Proof.
  intros Hr. unfold computeBankingRegularity.
  destruct (Qltb (len events) 2) eqn:Hlen.
  { destruct (Qeq_bool (len events) 1);
      eexists; (split; [reflexivity | split; lra]). }
  destruct events as [| a [| b rest]]; [discriminate Hlen | discriminate Hlen |].
  rewrite (bankingIntervals_in_range _ Hr).
  change (timestampGaps (a :: b :: rest))
    with ((timestamp_ms b - timestamp_ms a) :: timestampGaps (b :: rest)) in *.
  set (g := timestamp_ms b - timestamp_ms a) in *.
  set (gs := timestampGaps (b :: rest)) in *.
  destruct (mean_in_range g gs Hr) as [m Hm].
  cbv zeta. unfold jlen in *. rewrite len_map, Hm. cbn [jeq].
  destruct (Qeqb_spec m 0) as [_ | Hm0]; [apply half_unit |].
  apply clamp01_unit. apply jsub_finite_not_NaN.
  apply jdiv_finite_not_NaN; [| lra].
  apply jdiv_finite_not_NaN; [| exact Hm0].
  rewrite fold_left_mapped.
  apply (std_not_NaN Finite (g :: gs) _ m); [discriminate | apply len_cons_pos].
Qed.

Lemma one_minus_unit (a : jsnum) :
  unit_number a -> unit_number (Finite 1 - a)%js.
Proof.
  intros (q & -> & H0 & H1). unfold jsub. cbn [jneg jadd].
  apply fin_unit; lra.
Qed.

Lemma computeBehavioralC_unit (signals : BehavioralSignals) :
  sum_in_range (timestampGaps (banking_events signals)) ->
  array_length_ok (path_records signals) ->
  unit_number (computeBehavioralC sqrtQ signals).
Proof.
  intros Hbank Hpaths. unfold computeBehavioralC. cbv zeta.
  apply weighted3_unit; try lra.
  - apply computePathEfficiency_not_NaN. exact Hpaths.
  - apply computeBankingRegularity_unit. exact Hbank.
  - apply computeTapDeliberation_unit.
Qed.

Lemma computeBehavioralN_unit (signals : BehavioralSignals) :
  sum_in_range (tap_velocities signals) ->
  unit_number (computeBehavioralN sqrtQ signals).
Proof.
  intros Htaps. unfold computeBehavioralN. cbv zeta.
  apply weighted3_unit; try lra.
  - apply unit_not_NaN. apply computePostLossChange_unit.
  - apply computeHesitationPattern_unit. exact Htaps.
  - apply one_minus_unit. apply computeBartScore_unit.
Qed.

Lemma computeBehavioralA_unit (signals : BehavioralSignals) :
  unit_number (computeBehavioralA signals).
Proof.
  unfold computeBehavioralA. cbv zeta.
  apply weighted3_unit; try lra.
  - apply unit_not_NaN. apply computeSharingRate_unit.
  - apply computeTipRate_unit.
  - apply computeHelpAcceptance_unit.
Qed.

Lemma computeBehavioralO_unit (signals : BehavioralSignals) :
  unit_number (computeBehavioralO signals).
Proof.
  unfold computeBehavioralO. cbv zeta.
  apply weighted3_unit; try lra.
  - destruct (Qgtb_spec (total_tiles signals) 0) as [Hpos | _]; [| discriminate].
    apply jdiv_finite_not_NaN; [discriminate | lra].
  - apply computeShortcutUsage_unit.
  - apply computeBartScore_unit.
Qed.

Lemma computeBehavioralE_unit (signals : BehavioralSignals) :
  unit_number (computeBehavioralE signals).
Proof.
  unfold computeBehavioralE. cbv zeta.
  apply weighted2_unit; try lra.
  - cbn [jadd]. unfold jgt.
    destruct (fin_cases (crowd_time_ms signals + quiet_time_ms signals))
      as [[_ E] | [[_ E] | (_ & _ & E)]]; rewrite E; cbn [jlt jdiv];
      try discriminate.
    destruct (Qltb_spec 0 (crowd_time_ms signals + quiet_time_ms signals))
      as [Hpos | _]; [| discriminate].
    destruct (Qeqb_spec (crowd_time_ms signals + quiet_time_ms signals) 0);
      [lra | apply fin_not_NaN].
  - apply computeMultiOrderRate_unit.
Qed.


(** Five numbers of [0,1] are the image of a score vector. *)
Lemma unit_scores (r : BehavioralScores) :
  unit_number (b_C r) -> unit_number (b_N r) -> unit_number (b_A r) ->
  unit_number (b_O r) -> unit_number (b_E r) ->
  exists scores : NormalizedOceanScores,
    r = scoresOf scores /\ forall t, 0 <= get scores t /\ get scores t <= 1.
Proof.
  destruct r as [c n a o e]. cbn [b_C b_N b_A b_O b_E].
  intros (qc & -> & Hc) (qn & -> & Hn) (qa & -> & Ha) (qo & -> & Ho)
         (qe & -> & He).
  exists {| score_O := qo; score_C := qc; score_E := qe;
            score_A := qa; score_N := qn |}.
  split; [reflexivity |].
  intros t; destruct t; cbn [get score_O score_C score_E score_A score_N];
    assumption.
Qed.

Lemma computeAllBehavioralScores_in_range (signals : BehavioralSignals) :
  sum_in_range (tap_velocities signals) ->
  sum_in_range (timestampGaps (banking_events signals)) ->
  array_length_ok (path_records signals) ->
  exists scores : NormalizedOceanScores,
    computeAllBehavioralScores sqrtQ signals = scoresOf scores /\
    forall t, 0 <= get scores t /\ get scores t <= 1.
Proof.
  intros Htaps Hbank Hpaths. apply unit_scores;
    cbn [computeAllBehavioralScores b_C b_N b_A b_O b_E].
  - apply computeBehavioralC_unit; assumption.
  - apply computeBehavioralN_unit; assumption.
  - apply computeBehavioralA_unit.
  - apply computeBehavioralO_unit.
  - apply computeBehavioralE_unit.
Qed.

End BehavioralFinite.











(* ================================================================== *)
(** * ocean.ts: averages and variances of a response history           *)
(* ================================================================== *)

Lemma len_nil {X : Type} : len (@nil X) == 0.
Proof. reflexivity. Qed.

(** A sum of numbers between [lo] and [hi]. *)
Lemma sum_between (lo hi : Q) (xs : list Q) (acc : Q) :
  (forall x, In x xs -> lo <= x /\ x <= hi) ->
  acc + lo * len xs <= fold_left (fun s v => s + v) xs acc /\
  fold_left (fun s v => s + v) xs acc <= acc + hi * len xs.
Proof.
  revert acc. induction xs as [| x xs IH]; intros acc Hxs; cbn [fold_left].
  - rewrite len_nil. lra.
  - destruct (Hxs x (or_introl eq_refl)) as [Hlo Hhi].
    destruct (IH (acc + x) (fun y Hy => Hxs y (or_intror Hy))) as [IHlo IHhi].
    pose proof (len_cons x xs) as Hlen.
    set (n := len xs) in *. set (n' := len (x :: xs)) in *.
    clearbody n n'.
    assert (E1 : lo * n' == lo * n + lo) by (rewrite Hlen; ring).
    assert (E2 : hi * n' == hi * n + hi) by (rewrite Hlen; ring).
    lra.
Qed.

Lemma average_between (lo hi : Q) (vs : list Q) (defaultValue : Q) :
  (forall x, In x vs -> lo <= x /\ x <= hi) ->
  lo <= defaultValue /\ defaultValue <= hi ->
  lo <= average vs defaultValue /\ average vs defaultValue <= hi.
Proof.
  intros Hvs Hd. unfold average. destruct vs as [| v vs']; [exact Hd |].
  pose proof (len_cons_pos v vs') as Hpos.
  destruct (sum_between lo hi (v :: vs') 0 Hvs) as [Hlo Hhi].
  fold (sum (v :: vs')) in Hlo, Hhi.
  split.
  - apply Qle_shift_div_l; [exact Hpos | lra].
  - apply Qle_shift_div_r; [exact Hpos | lra].
Qed.

Lemma In_traitScores (responses : list QuestionResponse) (t : OceanTrait) (x : Q) :
  In x (traitScores responses t) ->
  exists r, In r responses /\ score r = x.
Proof.
  unfold traitScores. intros Hin. apply in_map_iff in Hin.
  destruct Hin as (r & Hr & Hf). apply filter_In in Hf.
  exists r. split; [apply Hf | exact Hr].
Qed.

(** X1.  When every recorded score lies in [1,5], every trait average lies
    in [1,5] as well; a trait without any response gets the midpoint 3. *)
Theorem computeTraitAverages_raw_scale (responses : list QuestionResponse) :
  (forall r, In r responses -> 1 <= score r /\ score r <= 5) ->
  raw_scale (computeTraitAverages responses) /\
  (forall t, traitScores responses t = [] ->
             get (computeTraitAverages responses) t = 3.0).
Proof.
  intros Hrs. split.
  - intros t. unfold computeTraitAverages. rewrite get_build.
    apply (average_between 1 5).
    + intros x Hx. destruct (In_traitScores responses t x Hx) as (r & Hr & <-).
      apply Hrs. exact Hr.
    + lra.
  - intros t Hnil. unfold computeTraitAverages. rewrite get_build.
    rewrite Hnil. reflexivity.
Qed.

Lemma computeTraitAverages_raw_scale_witness :
  let rs := [ {| trait := Trait.C; score := 4.5 |};
              {| trait := Trait.C; score := 2.5 |};
              {| trait := Trait.N; score := 1.5 |} ] in
  (forall r, In r rs -> 1 <= score r /\ score r <= 5) /\
  raw_scale (computeTraitAverages rs).
Proof.
  cbv zeta.
  match goal with
  | |- (forall r, In r ?l -> _) /\ _ =>
      assert (H : forall r, In r l -> 1 <= score r /\ score r <= 5)
  end.
  { intros r Hin. simpl in Hin.
    destruct Hin as [<- | [<- | [<- | []]]]; vm_compute; split; discriminate. }
  split; [exact H |].
  exact (proj1 (computeTraitAverages_raw_scale _ H)).
Defined.

Lemma variance_few_samples (vs : list Q) :
  (List.length vs < 2)%nat -> variance vs = 1.0.
Proof.
  intros Hlen. destruct vs as [| a [| b rest]]; [reflexivity | reflexivity |].
  cbn [List.length] in Hlen. lia.
Qed.

(** X2.  A trait variance is never negative, and it is exactly 1.0 for a
    trait with fewer than two recorded responses. *)
Theorem computeTraitVariances_nonneg_default
    (responses : list QuestionResponse) (t : OceanTrait) :
  0 <= get (computeTraitVariances responses) t /\
  ((List.length (traitScores responses t) < 2)%nat ->
   get (computeTraitVariances responses) t = 1.0).
Proof.
  unfold computeTraitVariances. rewrite get_build. split.
  - apply variance_nonneg.
  - apply variance_few_samples.
Qed.

Lemma computeTraitVariances_nonneg_default_witness :
  (List.length (traitScores [ {| trait := Trait.C; score := 4 |} ] Trait.C) < 2)%nat /\
  get (computeTraitVariances [ {| trait := Trait.C; score := 4 |} ]) Trait.C = 1.0.
Proof.
  assert (H : (List.length
                 (traitScores [ {| trait := Trait.C; score := 4 |} ] Trait.C) < 2)%nat)
    by (cbn; lia).
  split; [exact H |].
  exact (proj2 (computeTraitVariances_nonneg_default
                  [ {| trait := Trait.C; score := 4 |} ] Trait.C) H).
Defined.

Lemma sum_ge_acc (xs : list Q) (acc : Q) :
  (forall y, In y xs -> 0 <= y) -> acc <= fold_left (fun s v => s + v) xs acc.
Proof.
  revert acc. induction xs as [| y ys IH]; intros acc Hxs; cbn [fold_left].
  - lra.
  - pose proof (Hxs y (or_introl eq_refl)) as Hy.
    specialize (IH (acc + y) (fun z Hz => Hxs z (or_intror Hz))). lra.
Qed.

(** Every term of a sum of non-negative numbers is at most the sum. *)
Lemma sum_nonneg_term (xs : list Q) (acc : Q) (x : Q) :
  (forall y, In y xs -> 0 <= y) -> In x xs ->
  acc + x <= fold_left (fun s v => s + v) xs acc.
Proof.
  revert acc. induction xs as [| y ys IH]; intros acc Hxs Hin; [contradiction |].
  cbn [fold_left]. destruct Hin as [-> | Hin].
  - apply sum_ge_acc. intros z Hz. apply Hxs. right. exact Hz.
  - pose proof (Hxs y (or_introl eq_refl)) as Hy.
    specialize (IH (acc + y) (fun z Hz => Hxs z (or_intror Hz)) Hin). lra.
Qed.

Lemma len_nonneg {X : Type} (xs : list X) : 0 <= len xs.
Proof.
  unfold len. change 0 with (inject_Z 0). rewrite <- Zle_Qle. lia.
Qed.

Lemma len_lt_nat {X : Type} (xs : list X) (m : nat) :
  (List.length xs < m)%nat -> len xs < inject_Z (Z.of_nat m).
Proof. intros H. unfold len. rewrite <- Zlt_Qlt. lia. Qed.

Lemma len_ge_nat {X : Type} (xs : list X) (m : nat) :
  (m <= List.length xs)%nat -> inject_Z (Z.of_nat m) <= len xs.
Proof. intros H. unfold len. rewrite <- Zle_Qle. lia. Qed.

(** The terms of a sum that is squeezed between [c * n] and [c * n]. *)
Lemma sum_constant (c : Q) (xs : list Q) :
  (forall x, In x xs -> x == c) -> sum xs == c * len xs.
Proof.
  intros Hxs.
  destruct (sum_between c c xs 0) as [Hlo Hhi].
  - intros x Hx. specialize (Hxs x Hx). lra.
  - unfold sum. lra.
Qed.

Lemma Qsquare_zero (y : Q) : y ^ 2 == 0 -> y == 0.
Proof.
  change (y ^ 2) with (y * y). intros H.
  destruct (Qmult_integral _ _ H); assumption.
Qed.

(** X3.  With at least two samples, the variance is zero exactly when all
    the samples are equal. *)
Theorem variance_zero_iff_constant (vs : list Q) :
  (2 <= List.length vs)%nat ->
  (variance vs == 0 <-> forall x y, In x vs -> In y vs -> x == y).
Proof.
  intros Hlen. unfold variance.
  pose proof (len_ge_nat vs 2 Hlen) as Hge. change (inject_Z (Z.of_nat 2)) with 2 in Hge.
  destruct (Qltb_spec (len vs) 2) as [Hlt | _]; [lra |].
  cbv zeta.
  set (n := len vs) in *.
  set (mean := sum vs / n).
  set (sq := map (fun v => (v - mean) ^ 2) vs).
  assert (Hn : 0 < n) by lra.
  assert (Hsq : forall t, In t sq -> 0 <= t).
  { intros t Ht. apply in_map_iff in Ht. destruct Ht as (v & <- & _).
    apply Qsquare_nonneg. }
  split.
  - intros Hzero.
    assert (Hsum : sum sq == 0).
    { assert (E : sum sq == (sum sq / n) * n) by (field; lra).
      rewrite E, Hzero. ring. }
    assert (Hmean : forall v, In v vs -> v == mean).
    { intros v Hv.
      assert (Hin : In ((v - mean) ^ 2) sq)
        by exact (in_map (fun w => (w - mean) ^ 2) vs v Hv).
      pose proof (sum_nonneg_term sq 0 _ Hsq Hin) as Hle.
      fold (sum sq) in Hle.
      pose proof (Hsq _ Hin) as Hge0.
      assert (Hz : (v - mean) ^ 2 == 0) by lra.
      apply Qsquare_zero in Hz. lra. }
    intros x y Hx Hy. rewrite (Hmean x Hx), (Hmean y Hy). reflexivity.
  - intros Heq.
    destruct vs as [| a rest]; [cbn in Hlen; lia |].
    assert (Ha : forall v, In v (a :: rest) -> v == a)
      by (intros v Hv; apply Heq; [exact Hv | left; reflexivity]).
    assert (Hm : mean == a).
    { unfold mean. rewrite (sum_constant a (a :: rest) Ha). fold n. field. lra. }
    assert (Hsum : sum sq == 0 * len sq).
    { apply sum_constant. intros t Ht. apply in_map_iff in Ht.
      destruct Ht as (v & <- & Hv).
      assert (E : v - mean == 0) by (rewrite Hm, (Ha v Hv); ring).
      change ((v - mean) ^ 2) with ((v - mean) * (v - mean)).
      rewrite E. ring. }
    rewrite Hsum. field. lra.
Qed.

Lemma variance_zero_iff_constant_witness :
  le 2 (List.length [3.5; 3.5; 3.5]) /\ variance [3.5; 3.5; 3.5] == 0.
Proof.
  assert (H : le 2 (List.length [3.5; 3.5; 3.5])) by (cbn; lia).
  split; [exact H |].
  apply (proj2 (variance_zero_iff_constant [3.5; 3.5; 3.5] H)).
  intros x y Hx Hy. simpl in Hx, Hy.
  destruct Hx as [<- | [<- | [<- | []]]];
    destruct Hy as [<- | [<- | [<- | []]]]; reflexivity.
Defined.

(* ================================================================== *)
(** * ocean.ts with the configured stopping rule                       *)
(* ================================================================== *)

(** Every response counts for exactly one trait. *)
Lemma traitScores_partition (responses : list QuestionResponse) :
  List.length responses =
  (List.length (traitScores responses Trait.O)
   + List.length (traitScores responses Trait.C)
   + List.length (traitScores responses Trait.E)
   + List.length (traitScores responses Trait.A)
   + List.length (traitScores responses Trait.N))%nat.
Proof.
  unfold traitScores.
  induction responses as [| r rs IH]; [reflexivity |].
  cbn [filter]. destruct (trait r); cbn [map List.length]; lia.
Qed.

(** X4.  With the configured thresholds (variance 0.3, minimum 8, maximum
    15) the questioning never stops on a history of fewer than ten
    responses: some trait then has fewer than two responses, and its
    variance is the placeholder 1.0. *)
Theorem no_completion_before_ten_responses (responses : list QuestionResponse) :
  (List.length responses < 10)%nat ->
  isAssessmentComplete (computeTraitVariances responses) (len responses)
    QUESTION_CONFIG_variance_threshold QUESTION_CONFIG_min_questions
    QUESTION_CONFIG_max_questions = false.
Proof.
  intros Hlen.
  pose proof (len_lt_nat responses 10 Hlen) as Hq.
  change (inject_Z (Z.of_nat 10)) with 10 in Hq.
  unfold QUESTION_CONFIG_variance_threshold, QUESTION_CONFIG_min_questions,
    QUESTION_CONFIG_max_questions.
  destruct (isAssessmentComplete_cases (computeTraitVariances responses)
              (len responses) 0.3 8 15)
    as [[Hmx _] | [(_ & _ & E) | (_ & _ & E)]]; [lra | exact E |].
  rewrite E.
  destruct (forallb _ _) eqn:Hall; [exfalso | reflexivity].
  assert (Hbelow : forall t, get (computeTraitVariances responses) t < 0.3)
    by (apply allBelowThreshold_iff; exact Hall).
  assert (Htwo : forall t, (2 <= List.length (traitScores responses t))%nat).
  { intros t.
    assert (Hcase : (2 <= List.length (traitScores responses t)
                     \/ List.length (traitScores responses t) < 2)%nat) by lia.
    destruct Hcase as [Hok | Hfew]; [exact Hok | exfalso].
    specialize (Hbelow t). unfold computeTraitVariances in Hbelow.
    rewrite get_build, (variance_few_samples _ Hfew) in Hbelow. lra. }
  pose proof (traitScores_partition responses) as Hpart.
  pose proof (Htwo Trait.O). pose proof (Htwo Trait.C).
  pose proof (Htwo Trait.E). pose proof (Htwo Trait.A).
  pose proof (Htwo Trait.N). lia.
Qed.

Lemma no_completion_before_ten_responses_witness :
  let rs := [ {| trait := Trait.C; score := 4 |};
              {| trait := Trait.C; score := 4 |} ] in
  (List.length rs < 10)%nat /\
  isAssessmentComplete (computeTraitVariances rs) (len rs) 0.3 8 15 = false.
Proof.
  cbv zeta.
  match goal with
  | |- (List.length ?l < 10)%nat /\ _ =>
      assert (H : (List.length l < 10)%nat) by (cbn; lia);
      split; [exact H | exact (no_completion_before_ten_responses l H)]
  end.
Defined.

(* ================================================================== *)
(** * ocean.ts: the scale conversion outside its range                 *)
(* ================================================================== *)

(** X5.  For every score, in range or not, normalizing and denormalizing
    gives the score clamped into [1,5]; the normalized value itself always
    lies in [0,1]. *)
Theorem denormalize_normalize_clamps (r : Q) :
  denormalizeScore (normalizeScore r) == Qmax 1 (Qmin 5 r) /\
  0 <= normalizeScore r /\ normalizeScore r <= 1.
Proof.
  unfold denormalizeScore, normalizeScore. minmax_cases; qarith.
Qed.

(** X6.  For every normalized value in [0,1], denormalizing and normalizing
    again gives the value back. *)
Theorem normalize_denormalize_roundtrip (n : Q) :
  0 <= n -> n <= 1 -> normalizeScore (denormalizeScore n) == n.
Proof.
  intros Hlo Hhi. unfold denormalizeScore, normalizeScore.
  minmax_cases; qarith.
Qed.

Lemma normalize_denormalize_roundtrip_witness :
  0 <= 0.55 /\ 0.55 <= 1 /\ normalizeScore (denormalizeScore 0.55) == 0.55.
Proof.
  split; [lra | split; [lra |]].
  apply (normalize_denormalize_roundtrip 0.55); lra.
Defined.

(* ================================================================== *)
(** * pd.ts: shape of the PD curve                                     *)
(* ================================================================== *)

(** X7.  On a raw-scale trait vector the clamp of [computePD] never binds:
    the PD is exactly [0.02 + 0.33 * weightedRisk]. *)
Theorem computePD_affine_on_raw_scale (s : OceanScores) :
  raw_scale s -> computePD s == 0.02 + 0.33 * computeWeightedRisk s.
Proof.
  intros Hs. destruct (computeWeightedRisk_unit s Hs) as [Hlo Hhi].
  unfold computePD. cbv zeta. unfold PD_RANGE, PD_MIN, PD_MAX.
  set (w := computeWeightedRisk s) in *. clearbody w.
  minmax_cases; lra.
Qed.

Lemma computePD_affine_on_raw_scale_witness :
  raw_scale scenarioB /\
  computePD scenarioB == 0.02 + 0.33 * computeWeightedRisk scenarioB.
Proof.
  split; [exact raw_scale_scenarioB |].
  exact (computePD_affine_on_raw_scale scenarioB raw_scale_scenarioB).
Defined.

(** X8.  The PD is monotone in every trait, for all inputs: a higher C with
    no higher N, A, O and E never gives a higher PD. *)
Theorem computePD_monotone (s s' : OceanScores) :
  score_C s <= score_C s' ->
  score_N s' <= score_N s -> score_A s' <= score_A s ->
  score_O s' <= score_O s -> score_E s' <= score_E s ->
  computeWeightedRisk s' <= computeWeightedRisk s /\
  computePD s' <= computePD s.
Proof.
  intros HC HN HA HO HE.
  assert (Hw : computeWeightedRisk s' <= computeWeightedRisk s).
  { unfold computeWeightedRisk, computeRiskContributions, TRAIT_WEIGHTS.
    cbv zeta. cbn [score_C score_N score_A score_O score_E]. qarith. }
  split; [exact Hw |].
  unfold computePD. cbv zeta. unfold PD_RANGE, PD_MIN, PD_MAX.
  set (w := computeWeightedRisk s) in *.
  set (w' := computeWeightedRisk s') in *. clearbody w w'.
  minmax_cases; lra.
Qed.

Lemma computePD_monotone_witness :
  score_C scenarioB <= score_C scenarioA /\
  computePD scenarioA <= computePD scenarioB.
Proof.
  split; [vm_compute; discriminate |].
  apply (computePD_monotone scenarioB scenarioA); vm_compute; discriminate.
Defined.

(** X9.  In the full pipeline the modified PD differs from the raw PD by at
    most the size of the modifier, and not at all when the modifier is 0. *)
Theorem calculateFullPD_modifier_effect (s : OceanScores) (modifier : Q) :
  Qabs (pdModified (calculateFullPD s modifier) - pdRaw (calculateFullPD s modifier))
    <= Qabs modifier /\
  pdModified (calculateFullPD s 0) == pdRaw (calculateFullPD s 0).
Proof.
  unfold calculateFullPD. cbv zeta. cbn [pdModified pdRaw].
  pose proof (computePD_bounds s) as [Hlo Hhi].
  set (pd := computePD s) in *. clearbody pd.
  unfold applyProfileModifier. cbv zeta. unfold PD_MIN, PD_MAX.
  split.
  - apply Qabs_Qle_condition.
    apply (Qabs_case modifier); intros Hm; minmax_cases; lra.
  - minmax_cases; lra.
Qed.

(* ================================================================== *)
(** * loan.ts with pd.ts: decisions, ratings and terms                 *)
(* ================================================================== *)

(** X10.  When no consistency index is given, or its overall value does not
    exceed 0.40, the decision is determined by the rating of the same PD:
    low is approved, moderate is pending_approval, elevated is
    manual_review. *)
Theorem decision_follows_rating (pd : Q) (c : option ConsistencyIndex) :
  match c with Some ci => overall ci <= 0.40 | None => True end ->
  decision (determineLoanDecision pd (getRiskRating pd) c) =
  match getRiskRating pd with
  | low => approved
  | moderate => pending_approval
  | elevated => manual_review
  end.
Proof.
  intros Hc. unfold determineLoanDecision, getRiskRating.
  unfold LOAN_THRESHOLDS_consistency_review_threshold,
    LOAN_THRESHOLDS_auto_approve_pd, LOAN_THRESHOLDS_manual_review_pd,
    RISK_THRESHOLDS_low, RISK_THRESHOLDS_moderate.
  destruct c as [ci |].
  - destruct (Qgtb_spec (overall ci) 0.40) as [Hgt | _]; [lra |].
    destruct (Qltb pd 0.08); [reflexivity |].
    destruct (Qltb pd 0.18); reflexivity.
  - destruct (Qgtb_spec 0 0.40) as [Hgt | _]; [lra |].
    destruct (Qltb pd 0.08); [reflexivity |].
    destruct (Qltb pd 0.18); reflexivity.
Qed.

Lemma decision_follows_rating_witness :
  overall (consistency_with 0.40) <= 0.40 /\
  decision (determineLoanDecision 0.05 (getRiskRating 0.05)
              (Some (consistency_with 0.40))) = approved.
Proof.
  assert (H : overall (consistency_with 0.40) <= 0.40)
    by (vm_compute; discriminate).
  split; [exact H |].
  exact (decision_follows_rating 0.05 (Some (consistency_with 0.40)) H).
Defined.

(** X11.  Whatever the consistency index, a decision computed from a
    pipeline result is approved only on a low rating, and an approved
    decision carries the low-risk terms: 50000, 36 months, 8.5 percent. *)
Theorem approved_carries_low_risk_terms
    (s : OceanScores) (modifier : Q) (c : option ConsistencyIndex) :
  let r := calculateFullPD s modifier in
  let d := determineLoanDecision (pdModified r) (riskRating r) c in
  decision d = approved ->
  riskRating r = low /\
  maxAmount d = 50000 /\ durationMonths d = 36 /\ aprPercent d = 8.5.
Proof.
  cbv zeta. unfold calculateFullPD. cbv zeta. cbn [pdModified riskRating].
  set (pd := applyProfileModifier (computePD s) modifier). clearbody pd.
  unfold determineLoanDecision, getRiskRating.
  unfold LOAN_THRESHOLDS_auto_approve_pd, LOAN_THRESHOLDS_manual_review_pd,
    RISK_THRESHOLDS_low, RISK_THRESHOLDS_moderate.
  destruct (Qgtb _ _); [discriminate |].
  destruct (Qltb pd 0.08); [intros _; repeat split |].
  destruct (Qltb pd 0.18); discriminate.
Qed.

Lemma approved_carries_low_risk_terms_witness :
  decision (determineLoanDecision
              (pdModified (calculateFullPD scenarioA (-0.03)))
              (riskRating (calculateFullPD scenarioA (-0.03))) None) = approved /\
  maxAmount (determineLoanDecision
               (pdModified (calculateFullPD scenarioA (-0.03)))
               (riskRating (calculateFullPD scenarioA (-0.03))) None) = 50000.
Proof.
  assert (H : decision (determineLoanDecision
                (pdModified (calculateFullPD scenarioA (-0.03)))
                (riskRating (calculateFullPD scenarioA (-0.03))) None) = approved)
    by (vm_compute; reflexivity).
  split; [exact H |].
  exact (proj1 (proj2 (approved_carries_low_risk_terms scenarioA (-0.03) None H))).
Defined.

(** X12.  The internal decision is never declined and never pending, so the
    decision stored with the loan recommendation is never decline; and the
    applicant sees approved exactly when the internal decision is
    approved. *)
Theorem determineLoanDecision_never_declines
    (pd : Q) (r : RiskRating) (c : option ConsistencyIndex) :
  let d := determineLoanDecision pd r c in
  decision d <> declined /\ decision d <> pending /\
  recommendationDecision (decision d) <> Recommendation.decline /\
  (userFacingDecision d = approved <-> decision d = approved).
Proof.
  cbv zeta. unfold determineLoanDecision.
  destruct (Qgtb _ _);
    [| destruct (Qltb pd _); [| destruct (Qltb pd _)]];
    cbn [decision userFacingDecision recommendationDecision];
    repeat split; intros; try discriminate; try reflexivity.
Qed.

(* ================================================================== *)
(** * blending.ts: range of the blend and of the consistency index     *)
(* ================================================================== *)

(** One component of the blend, written out. *)
Lemma blend_component (p1 : OceanScores) (p2 : NormalizedOceanScores) (t : OceanTrait) :
  get (blendScores p1 p2) t ==
  1 + (phase1 (BLENDING_WEIGHTS t) * normalizeScore (get p1 t)
       + phase2 (BLENDING_WEIGHTS t) * get p2 t) * 4.
Proof. unfold blendScores. rewrite get_build. reflexivity. Qed.

(** A blended component is on the raw scale as soon as the phase-2 score of
    that trait is in [0,1]. *)
Lemma blend_component_raw (p1 : OceanScores) (p2 : NormalizedOceanScores) (t : OceanTrait) :
  0 <= get p2 t -> get p2 t <= 1 ->
  1 <= get (blendScores p1 p2) t /\ get (blendScores p1 p2) t <= 5.
Proof.
  intros Hlo Hhi. rewrite blend_component.
  destruct (normalizeScore_unit (get p1 t)) as [Hn0 Hn1].
  set (n := normalizeScore (get p1 t)) in *. clearbody n.
  set (y := get p2 t) in *. clearbody y.
  destruct t; cbn [BLENDING_WEIGHTS phase1 phase2]; lra.
Qed.

(** X13.  Whatever the phase-1 scores, blending with phase-2 scores that lie
    in [0,1] gives a vector on the raw scale [1,5], whose weighted risk
    therefore lies in [0,1]. *)
Theorem blendScores_raw_scale (p1 : OceanScores) (p2 : NormalizedOceanScores) :
  (forall t, 0 <= get p2 t /\ get p2 t <= 1) ->
  raw_scale (blendScores p1 p2) /\
  0 <= computeWeightedRisk (blendScores p1 p2) /\
  computeWeightedRisk (blendScores p1 p2) <= 1.
Proof.
  intros Hp2.
  assert (Hraw : raw_scale (blendScores p1 p2)).
  { intros t. destruct (Hp2 t) as [Hlo Hhi].
    apply blend_component_raw; assumption. }
  split; [exact Hraw |].
  apply computeWeightedRisk_unit. exact Hraw.
Qed.

Lemma blendScores_raw_scale_witness :
  (forall t, 0 <= get (uniform 0.5) t /\ get (uniform 0.5) t <= 1) /\
  raw_scale (blendScores (uniform 9) (uniform 0.5)).
Proof.
  assert (H : forall t, 0 <= get (uniform 0.5) t /\ get (uniform 0.5) t <= 1)
    by (intros t; destruct t; vm_compute; split; discriminate).
  split; [exact H |].
  exact (proj1 (blendScores_raw_scale (uniform 9) (uniform 0.5) H)).
Defined.

(** X14.  Every blended component lies between the two sources it blends:
    the phase-1 score clamped to the raw scale and the phase-2 score
    brought to the raw scale. *)
Theorem blendScores_between_sources
    (p1 : OceanScores) (p2 : NormalizedOceanScores) (t : OceanTrait) :
  let a := denormalizeScore (normalizeScore (get p1 t)) in
  let b := denormalizeScore (get p2 t) in
  Qmin a b <= get (blendScores p1 p2) t /\
  get (blendScores p1 p2) t <= Qmax a b.
Proof.
  cbv zeta. rewrite blend_component. unfold denormalizeScore.
  set (n := normalizeScore (get p1 t)). clearbody n.
  set (y := get p2 t). clearbody y.
  destruct t; cbn [BLENDING_WEIGHTS phase1 phase2]; minmax_cases; lra.
Qed.

Lemma Qabs_diff_unit (n y : Q) :
  0 <= n -> n <= 1 -> 0 <= y -> y <= 1 ->
  0 <= Qabs (n - y) /\ Qabs (n - y) <= 1.
Proof.
  intros Hn0 Hn1 Hy0 Hy1. split; [apply Qabs_nonneg |].
  apply Qabs_Qle_condition. lra.
Qed.

(** X15.  With phase-2 scores in [0,1], every per-trait discrepancy and the
    overall consistency index lie in [0,1]. *)
Theorem computeConsistencyIndex_unit
    (p1 : OceanScores) (p2 : NormalizedOceanScores) :
  (forall t, 0 <= get p2 t /\ get p2 t <= 1) ->
  let ci := computeConsistencyIndex p1 p2 in
  (0 <= ci_O ci /\ ci_O ci <= 1) /\ (0 <= ci_C ci /\ ci_C ci <= 1) /\
  (0 <= ci_E ci /\ ci_E ci <= 1) /\ (0 <= ci_A ci /\ ci_A ci <= 1) /\
  (0 <= ci_N ci /\ ci_N ci <= 1) /\
  (0 <= overall ci /\ overall ci <= 1).
Proof.
  intros Hp2. cbv zeta.
  assert (Hd : forall t,
             0 <= Qabs (normalizeScore (get p1 t) - get p2 t) /\
             Qabs (normalizeScore (get p1 t) - get p2 t) <= 1).
  { intros t. destruct (Hp2 t). destruct (normalizeScore_unit (get p1 t)).
    apply Qabs_diff_unit; assumption. }
  pose proof (Hd Trait.O) as HO. pose proof (Hd Trait.C) as HC.
  pose proof (Hd Trait.E) as HE. pose proof (Hd Trait.A) as HA.
  pose proof (Hd Trait.N) as HN.
  cbn [get] in HO, HC, HE, HA, HN.
  unfold computeConsistencyIndex. cbv zeta.
  cbn [ci_O ci_C ci_E ci_A ci_N overall fold_left traits].
  rewrite !get_build.
  cbn [build score_O score_C score_E score_A score_N get].
  unfold Math_abs, TRAIT_WEIGHTS.
  set (dO := Qabs (normalizeScore (score_O p1) - score_O p2)) in *.
  set (dC := Qabs (normalizeScore (score_C p1) - score_C p2)) in *.
  set (dE := Qabs (normalizeScore (score_E p1) - score_E p2)) in *.
  set (dA := Qabs (normalizeScore (score_A p1) - score_A p2)) in *.
  set (dN := Qabs (normalizeScore (score_N p1) - score_N p2)) in *.
  clearbody dO dC dE dA dN.
  repeat split; lra.
Qed.

Lemma computeConsistencyIndex_unit_witness :
  (forall t, 0 <= get (uniform 0.5) t /\ get (uniform 0.5) t <= 1) /\
  overall (computeConsistencyIndex scenarioB (uniform 0.5)) <= 1.
Proof.
  assert (H : forall t, 0 <= get (uniform 0.5) t /\ get (uniform 0.5) t <= 1)
    by (intros t; destruct t; vm_compute; split; discriminate).
  split; [exact H |].
  pose proof (computeConsistencyIndex_unit scenarioB (uniform 0.5) H) as Hu.
  cbv zeta in Hu.
  exact (proj2 (proj2 (proj2 (proj2 (proj2 (proj2 Hu)))))).
Defined.

(** X16.  When the behavioral scores agree with the self-report (each is
    the normalization of the raw score), every per-trait discrepancy and the
    overall index are zero and the flag is highly_consistent. *)
Theorem consistency_of_agreeing_source (x : OceanScores) :
  raw_scale x ->
  let ci := computeConsistencyIndex x (normalized_of x) in
  ci_O ci == 0 /\ ci_C ci == 0 /\ ci_E ci == 0 /\ ci_A ci == 0 /\
  ci_N ci == 0 /\ overall ci == 0 /\ flag ci = highly_consistent.
Proof.
  intros Hx. cbv zeta.
  assert (Hd : forall t,
             Qabs (normalizeScore (get x t) - get (normalized_of x) t) == 0).
  { intros t. destruct (Hx t) as [Hlo Hhi].
    unfold normalized_of. rewrite get_build.
    rewrite (normalizeScore_in_range _ Hlo Hhi).
    setoid_replace ((get x t - 1) / 4 - (get x t - 1) / 4) with 0 by ring.
    reflexivity. }
  pose proof (Hd Trait.O) as HO. pose proof (Hd Trait.C) as HC.
  pose proof (Hd Trait.E) as HE. pose proof (Hd Trait.A) as HA.
  pose proof (Hd Trait.N) as HN.
  assert (Hov : overall (computeConsistencyIndex x (normalized_of x)) == 0).
  { rewrite (computeConsistencyIndex_overall x (normalized_of x)).
    unfold weighted_average, computeConsistencyIndex. cbv zeta.
    cbn [ci_O ci_C ci_E ci_A ci_N build score_O score_C score_E score_A score_N].
    unfold Math_abs. rewrite HO, HC, HE, HA, HN. reflexivity. }
  repeat split; try assumption.
  apply (proj1 (getConsistencyFlag_bands
                  (overall (computeConsistencyIndex x (normalized_of x))))).
  rewrite Hov. reflexivity.
Qed.

Lemma consistency_of_agreeing_source_witness :
  raw_scale scenarioB /\
  flag (computeConsistencyIndex scenarioB (normalized_of scenarioB))
  = highly_consistent.
Proof.
  split; [exact raw_scale_scenarioB |].
  pose proof (consistency_of_agreeing_source scenarioB raw_scale_scenarioB) as H.
  cbv zeta in H.
  exact (proj2 (proj2 (proj2 (proj2 (proj2 (proj2 H)))))).
Defined.

(** X17.  A computed index flagged highly_consistent or normal_variance
    leaves the loan decision as it is without any index; one flagged
    high_discrepancy forces manual review; and an overall value of exactly
    0.40, although flagged moderate_discrepancy, does not force review. *)
Theorem consistency_flag_and_decision
    (p1 : OceanScores) (p2 : NormalizedOceanScores) (pd : Q) (r : RiskRating) :
  let ci := computeConsistencyIndex p1 p2 in
  (flag ci = highly_consistent \/ flag ci = normal_variance ->
   determineLoanDecision pd r (Some ci) = determineLoanDecision pd r None) /\
  (flag ci = high_discrepancy ->
   decision (determineLoanDecision pd r (Some ci)) = manual_review /\
   userFacingDecision (determineLoanDecision pd r (Some ci)) = pending_approval) /\
  (overall ci == 0.40 ->
   flag ci = moderate_discrepancy /\
   determineLoanDecision pd r (Some ci) = determineLoanDecision pd r None).
Proof.
  cbv zeta.
  change (flag (computeConsistencyIndex p1 p2))
    with (getConsistencyFlag (overall (computeConsistencyIndex p1 p2))).
  set (o := overall (computeConsistencyIndex p1 p2)).
  assert (Hnone : forall ci', overall ci' = o -> o <= 0.40 ->
            determineLoanDecision pd r (Some ci') = determineLoanDecision pd r None).
  { intros ci' Ho Hle. unfold determineLoanDecision. rewrite Ho.
    unfold LOAN_THRESHOLDS_consistency_review_threshold.
    destruct (Qgtb_spec o 0.40) as [Hgt | _]; [lra |].
    destruct (Qgtb_spec 0 0.40) as [Hgt | _]; [lra |]. reflexivity. }
  pose proof (getConsistencyFlag_bands o) as (B1 & B2 & B3 & B4).
  destruct (Qlt_le_dec o 0.20) as [H1 | H1];
    [| destruct (Qlt_le_dec o 0.40) as [H2 | H2];
       [| destruct (Qlt_le_dec o 0.60) as [H3 | H3]]].
  - rewrite (B1 H1). repeat split; intros; try discriminate;
      try (apply Hnone; [reflexivity | lra]); exfalso; lra.
  - rewrite (B2 H1 H2). repeat split; intros; try discriminate;
      try (apply Hnone; [reflexivity | lra]); exfalso; lra.
  - rewrite (B3 H2 H3). split; [| split].
    + intros [H | H]; discriminate H.
    + intros H; discriminate H.
    + intros Heq. split; [reflexivity |].
      apply Hnone; [reflexivity | lra].
  - rewrite (B4 H3). split; [| split].
    + intros [H | H]; discriminate H.
    + intros _. unfold determineLoanDecision. fold o.
      unfold LOAN_THRESHOLDS_consistency_review_threshold.
      destruct (Qgtb_spec o 0.40) as [_ | Hn]; [split; reflexivity | exfalso; lra].
    + intros Heq. exfalso. lra.
Qed.

Lemma consistency_flag_and_decision_witness :
  overall (computeConsistencyIndex (uniform 1) (uniform 0.40)) == 0.40 /\
  flag (computeConsistencyIndex (uniform 1) (uniform 0.40)) = moderate_discrepancy /\
  decision (determineLoanDecision 0.05 low
              (Some (computeConsistencyIndex (uniform 1) (uniform 0.40))))
  = approved.
Proof.
  assert (H : overall (computeConsistencyIndex (uniform 1) (uniform 0.40)) == 0.40)
    by (vm_compute; reflexivity).
  destruct (proj2 (proj2 (consistency_flag_and_decision
                            (uniform 1) (uniform 0.40) 0.05 low)) H)
    as [Hflag Hdec].
  split; [exact H | split; [exact Hflag |]].
  rewrite Hdec. reflexivity.
Defined.

(* ================================================================== *)
(** * behavioral.ts: range of the scores, tipped loads, twin signals   *)
(* ================================================================== *)

(** X18.  On a signal bundle whose tap intervals and banking intervals are
    in range, and whose paths fit in an array, the five behavioral scores
    are finite and lie in [0,1]; blended with any phase-1 scores they give a
    raw-scale vector. *)
Theorem computeAllBehavioralScores_unit
    (sqrtQ : Q -> Q) (signals : BehavioralSignals) :
  sum_in_range (tap_velocities signals) ->
  sum_in_range (timestampGaps (banking_events signals)) ->
  array_length_ok (path_records signals) ->
  exists scores : NormalizedOceanScores,
    computeAllBehavioralScores sqrtQ signals = scoresOf scores /\
    (forall t, 0 <= get scores t /\ get scores t <= 1) /\
    (forall phase1Scores, raw_scale (blendScores phase1Scores scores)).
Proof.
  intros Htaps Hbank Hpaths.
  destruct (computeAllBehavioralScores_in_range sqrtQ signals Htaps Hbank Hpaths)
    as (scores & Hs & Hunit).
  exists scores. split; [exact Hs |]. split; [exact Hunit |].
  intros phase1Scores t. destruct (Hunit t) as [Hlo Hhi].
  apply blend_component_raw; assumption.
Qed.

Lemma computeAllBehavioralScores_unit_witness :
  sum_in_range (tap_velocities steadyPlayer) /\
  sum_in_range (timestampGaps (banking_events steadyPlayer)) /\
  array_length_ok (path_records steadyPlayer) /\
  exists scores : NormalizedOceanScores,
    computeAllBehavioralScores (fun x => x) steadyPlayer = scoresOf scores /\
    (forall t, 0 <= get scores t /\ get scores t <= 1) /\
    (forall phase1Scores, raw_scale (blendScores phase1Scores scores)).
Proof.
  assert (Htaps : sum_in_range (tap_velocities steadyPlayer))
    by (vm_compute; discriminate).
  assert (Hbank : sum_in_range (timestampGaps (banking_events steadyPlayer)))
    by (vm_compute; discriminate).
  assert (Hpaths : array_length_ok (path_records steadyPlayer))
    by (vm_compute; discriminate).
  split; [exact Htaps |]. split; [exact Hbank |]. split; [exact Hpaths |].
  exact (computeAllBehavioralScores_unit (fun x => x) steadyPlayer
           Htaps Hbank Hpaths).
Defined.

Lemma filter_tipped_app (l1 l2 : list CargoLoad) (c : CargoLoad) :
  tipped c = true ->
  filter (fun x => negb (tipped x)) (l1 ++ c :: l2)
  = filter (fun x => negb (tipped x)) (l1 ++ l2).
Proof.
  intros Ht. rewrite !filter_app. cbn [filter]. rewrite Ht. reflexivity.
Qed.

(** X19.  The BART score always lies in [0,1], and a tipped load, wherever
    it stands in the list, does not change it. *)
Theorem computeBartScore_ignores_tipped
    (l1 l2 : list CargoLoad) (c : CargoLoad) :
  tipped c = true ->
  computeBartScore (l1 ++ c :: l2) = computeBartScore (l1 ++ l2) /\
  exists q, computeBartScore (l1 ++ c :: l2) = Finite q /\ 0 <= q /\ q <= 1.
Proof.
  intros Ht. split.
  - unfold computeBartScore. cbv zeta. rewrite (filter_tipped_app l1 l2 c Ht).
    reflexivity.
  - exact (computeBartScore_unit (l1 ++ c :: l2)).
Qed.

Lemma computeBartScore_ignores_tipped_witness :
  let safe := {| crates := 3; tipped := false; reward := 30; delivery_id := 1 |} in
  let lost := {| crates := 7; tipped := true; reward := 0; delivery_id := 2 |} in
  tipped lost = true /\
  computeBartScore ([safe] ++ lost :: [safe]) = computeBartScore ([safe] ++ [safe]).
Proof.
  cbv zeta.
  match goal with
  | |- tipped ?c = true /\ computeBartScore (?a ++ _ :: ?b) = _ =>
      assert (H : tipped c = true) by reflexivity;
      split; [exact H | exact (proj1 (computeBartScore_ignores_tipped a b c H))]
  end.
Defined.

(** X20.  The help-acceptance signal and the sharing-rate signal are the
    same statistic: on every list of sharing events they return the same
    result. *)
Theorem computeHelpAcceptance_is_sharingRate (events : list SharingEvent) :
  computeHelpAcceptance events = computeSharingRate events.
Proof.
  unfold computeHelpAcceptance, computeSharingRate.
  destruct (Qeq_bool (len events) 0); [reflexivity |]. cbv zeta.
  rewrite filter_twice.
  destruct (filter (fun e => offered e) events) as [| h hs].
  - reflexivity.
  - pose proof (len_cons_pos h hs) as Hpos.
    destruct (Qeqb_spec (len (h :: hs)) 0) as [Hz | _]; [lra |].
    destruct (Qgtb_spec (len (h :: hs)) 0) as [_ | Hn]; [reflexivity | lra].
Qed.

(* ================================================================== *)
(** * profiles.ts: the nearest money profile                           *)
(* ================================================================== *)

Lemma MONEY_PROFILES_signatures (p : MoneyProfile) :
  In p MONEY_PROFILES -> trait_signature p <> [].
Proof.
  intros Hin. unfold MONEY_PROFILES in Hin. cbn [In] in Hin.
  repeat (destruct Hin as [<- | Hin]; [discriminate |]). contradiction.
Qed.

Lemma MONEY_PROFILES_modifiers (p : MoneyProfile) :
  In p MONEY_PROFILES -> -0.03 <= pd_modifier p /\ pd_modifier p <= 0.06.
Proof.
  intros Hin. unfold MONEY_PROFILES in Hin. cbn [In] in Hin.
  repeat (destruct Hin as [<- | Hin]; [vm_compute; split; discriminate |]).
  contradiction.
Qed.

(** The signatures of the catalog: at most five entries, each on the raw
    scale. *)
Lemma MONEY_PROFILES_signature_values (p : MoneyProfile) :
  In p MONEY_PROFILES ->
  len (trait_signature p) <= 5 /\
  forall entry, In entry (trait_signature p) ->
                1 <= snd entry /\ snd entry <= 5.
Proof.
  intros Hin. unfold MONEY_PROFILES in Hin. cbn [In] in Hin.
  repeat (destruct Hin as [<- | Hin];
          [split; [vm_compute; discriminate |];
           intros entry He; cbn in He;
           repeat (destruct He as [<- | He];
                   [split; vm_compute; discriminate |]);
           contradiction |]).
  contradiction.
Qed.

(** The order of numbers, [NaN] apart. *)
Lemma jlt_trans (a b c : jsnum) :
  jlt a b = true -> jlt b c = true -> jlt a c = true.
Proof.
  destruct a as [x | | |], b as [y | | |], c as [z | | |]; cbn [jlt];
    try discriminate; try reflexivity.
  destruct (Qltb_spec x y); [| discriminate].
  destruct (Qltb_spec y z); [| discriminate].
  destruct (Qltb_spec x z); [reflexivity | lra].
Qed.

Lemma jlt_le_trans (a b c : jsnum) :
  b <> NaN -> jlt a c = true -> jlt b c = false -> jlt a b = true.
Proof.
  destruct a as [x | | |], b as [y | | |], c as [z | | |]; cbn [jlt];
    try discriminate; try reflexivity; try contradiction.
  intros _.
  destruct (Qltb_spec x z); [| discriminate].
  destruct (Qltb_spec y z); [discriminate |].
  destruct (Qltb_spec x y); [reflexivity | lra].
Qed.

Section ProfileMatching.

Variable sqrtQ : Q -> Q.
Variable scores : OceanScores.

(** A distance is [Infinity] or a finite number: never [NaN]. *)
Lemma computeProfileDistance_ordered (p : MoneyProfile) :
  computeProfileDistance sqrtQ scores p = PosInfinity \/
  exists d, computeProfileDistance sqrtQ scores p = Finite d.
Proof.
  unfold computeProfileDistance. cbv zeta.
  destruct (Qeq_bool _ 0); [left; reflexivity |].
  match goal with
  | |- context [Math_sqrt sqrtQ ?s] =>
      assert (Hs : nonneg_number s)
  end.
  { apply (fold_nonneg
             (fun entry : OceanTrait * Q =>
                jsquare (Finite (get scores (fst entry)) - Finite (snd entry))%js)).
    - intros entry. apply jsquare_nonneg. apply jsub_finite_finite.
    - right. exists 0. split; [reflexivity | lra]. }
  destruct Hs as [-> | (x & -> & Hx)]; cbn [Math_sqrt]; [left; reflexivity |].
  destruct (Qltb_spec x 0); [lra |]. right. eexists; reflexivity.
Qed.

Lemma computeProfileDistance_not_NaN (p : MoneyProfile) :
  computeProfileDistance sqrtQ scores p <> NaN.
Proof.
  destruct (computeProfileDistance_ordered p) as [-> | (d & ->)]; discriminate.
Qed.

(** On the raw scale the squared differences to a signature of raw-scale
    values add up to a finite number. *)
Lemma signature_sum_finite (sig : list (OceanTrait * Q)) :
  raw_scale scores ->
  (forall entry, In entry sig -> 1 <= snd entry /\ snd entry <= 5) ->
  forall a, 0 <= a -> a + 16 * len sig <= 4294967296 ->
    exists s,
      fold_left (fun acc (entry : OceanTrait * Q) =>
                   let profileValue := Finite (snd entry) in
                   let applicantValue := Finite (get scores (fst entry)) in
                   (acc + jsquare (applicantValue - profileValue))%js)
                sig (Finite a) = Finite s /\ 0 <= s.
Proof.
  intros Hraw. pose proof OVERFLOW_large as Hbig.
  induction sig as [| e es IH]; intros Hsig a Ha Hroom; cbn [fold_left].
  - exists a. split; [reflexivity | exact Ha].
  - pose proof (len_cons e es) as Hl. pose proof (len_nonneg' es) as Hn.
    destruct (Hraw (fst e)) as [Hx1 Hx5].
    destruct (Hsig e (or_introl eq_refl)) as [Hy1 Hy5].
    cbv zeta. unfold jsub, jsquare. cbn [jneg jadd].
    set (x := get scores (fst e)) in *. set (y := snd e) in *.
    rewrite (fin_small (x + - y)) by lra. cbn [jmul].
    assert (Hsq : 0 <= (x + - y) * (x + - y) /\ (x + - y) * (x + - y) <= 16).
    { assert (Hd : -4 <= x + - y /\ x + - y <= 4) by (split; lra).
      set (dxy := x + - y) in *. clearbody dxy. clear - Hd.
      destruct Hd as [Hd1 Hd2]. split; nra. }
    rewrite (fin_small ((x + - y) * (x + - y))) by lra.
    rewrite (fin_small (a + (x + - y) * (x + - y))) by lra.
    apply IH; [intros entry He; apply Hsig; right; exact He | lra | lra].
Qed.

(** On the raw scale the distance to a profile of the catalog is finite. *)
Lemma computeProfileDistance_raw (p : MoneyProfile) :
  raw_scale scores -> In p MONEY_PROFILES ->
  exists d, computeProfileDistance sqrtQ scores p = Finite d.
Proof.
  intros Hraw Hp.
  destruct (MONEY_PROFILES_signature_values p Hp) as [Hlen Hvals].
  unfold computeProfileDistance. cbv zeta.
  pose proof (MONEY_PROFILES_signatures p Hp) as Hsig.
  destruct (trait_signature p) as [| e es] eqn:Esig; [contradiction |].
  destruct (Qeqb_spec (len (e :: es)) 0) as [Hz | _];
    [exfalso; exact (len_pos_neq e es Hz) |].
  destruct (signature_sum_finite (e :: es) Hraw Hvals 0) as (s & Hs & Hs0);
    [lra | lra |].
  cbv zeta in Hs. rewrite Hs. cbn [Math_sqrt].
  destruct (Qltb_spec s 0); [lra |]. eexists; reflexivity.
Qed.

(** What the matching loop returns: the state it started from, when no
    profile is strictly nearer; or else the first profile at the least
    distance. *)
Lemma matchLoop_first_nearest (ps : list MoneyProfile) :
  forall (bp : MoneyProfile) (bd : jsnum),
    (matchLoop sqrtQ scores ps (bp, bd) = (bp, bd) /\
     forall p, In p ps ->
               jlt (computeProfileDistance sqrtQ scores p) bd = false) \/
    (exists l1 b l2,
        ps = l1 ++ b :: l2 /\
        matchLoop sqrtQ scores ps (bp, bd)
        = (b, computeProfileDistance sqrtQ scores b) /\
        jlt (computeProfileDistance sqrtQ scores b) bd = true /\
        (forall p, In p l1 ->
           jlt (computeProfileDistance sqrtQ scores b)
               (computeProfileDistance sqrtQ scores p) = true) /\
        (forall p, In p l2 ->
           jlt (computeProfileDistance sqrtQ scores p)
               (computeProfileDistance sqrtQ scores b) = false)).
Proof.
  unfold matchLoop.
  induction ps as [| p ps IH]; intros bp bd.
  - left. split; [reflexivity | intros ? []].
  - cbn [fold_left].
    assert (Est : matchStep sqrtQ scores (bp, bd) p =
                  if jlt (computeProfileDistance sqrtQ scores p) bd
                  then (p, computeProfileDistance sqrtQ scores p) else (bp, bd))
      by reflexivity.
    rewrite Est. clear Est.
    destruct (jlt (computeProfileDistance sqrtQ scores p) bd) eqn:Hlt.
    + right.
      destruct (IH p (computeProfileDistance sqrtQ scores p)) as
          [[E Hmin] | (l1 & b & l2 & Eps & E & Hb & Hl1 & Hl2)].
      * exists [], p, ps. split; [reflexivity |]. split; [exact E |].
        split; [exact Hlt |]. split; [intros ? [] | exact Hmin].
      * exists (p :: l1), b, l2.
        split; [rewrite Eps; reflexivity |]. split; [exact E |].
        split; [exact (jlt_trans _ _ _ Hb Hlt) |].
        split; [| exact Hl2].
        intros q [<- | Hq]; [exact Hb | apply Hl1; exact Hq].
    + destruct (IH bp bd) as
          [[E Hmin] | (l1 & b & l2 & Eps & E & Hb & Hl1 & Hl2)].
      * left. split; [exact E |].
        intros q [<- | Hq]; [exact Hlt | apply Hmin; exact Hq].
      * right. exists (p :: l1), b, l2.
        split; [rewrite Eps; reflexivity |]. split; [exact E |].
        split; [exact Hb |]. split; [| exact Hl2].
        intros q [<- | Hq]; [| apply Hl1; exact Hq].
        exact (jlt_le_trans _ _ _ (computeProfileDistance_not_NaN _) Hb Hlt).
Qed.

(** The loop started as in [matchMoneyProfile]: a split of the catalog at
    the profile it returns. *)
Lemma matchLoop_catalog :
  let st := matchLoop sqrtQ scores MONEY_PROFILES
              (hd PrudentPlanner MONEY_PROFILES, PosInfinity) in
  exists l1 l2,
    MONEY_PROFILES = l1 ++ fst st :: l2 /\
    snd st = computeProfileDistance sqrtQ scores (fst st) /\
    (forall p, In p l1 ->
       jlt (snd st) (computeProfileDistance sqrtQ scores p) = true) /\
    (forall p, In p l2 ->
       jlt (computeProfileDistance sqrtQ scores p) (snd st) = false).
Proof.
  cbv zeta.
  destruct (matchLoop_first_nearest MONEY_PROFILES
              (hd PrudentPlanner MONEY_PROFILES) PosInfinity)
    as [[E Hnone] | (l1 & b & l2 & Eps & E & _ & Hl1 & Hl2)]; rewrite E;
    cbn [fst snd].
  - exists [], (tl MONEY_PROFILES). split; [reflexivity |].
    split.
    + pose proof (Hnone PrudentPlanner (or_introl eq_refl)) as Hfirst.
      change (hd PrudentPlanner MONEY_PROFILES) with PrudentPlanner.
      destruct (computeProfileDistance_ordered PrudentPlanner)
        as [-> | (d & Hd)]; [reflexivity |].
      rewrite Hd in Hfirst. discriminate Hfirst.
    + split; [intros ? [] |].
      intros p Hp. apply Hnone. right. exact Hp.
  - exists l1, l2. split; [exact Eps |]. split; [reflexivity |].
    split; [exact Hl1 | exact Hl2].
Qed.

End ProfileMatching.

(** X21.  The matcher returns a profile of the catalog at its distance,
    which is [Infinity] or a finite number: the first one, in catalog order,
    among those at the least distance (every earlier profile is strictly
    farther, no later one is nearer).  Its confidence lies in [0,1] and its
    PD modifier in [-0.03, 0.06].  On raw-scale scores every distance is
    finite. *)
Theorem matchMoneyProfile_first_nearest (sqrtQ : Q -> Q) (scores : OceanScores) :
  let m := matchMoneyProfile sqrtQ scores in
  let dist := computeProfileDistance sqrtQ scores in
  exists l1 l2 c,
    MONEY_PROFILES = l1 ++ profile m :: l2 /\
    distance m = dist (profile m) /\
    (distance m = PosInfinity \/ exists d, distance m = Finite d) /\
    (forall p, In p l1 -> jlt (distance m) (dist p) = true) /\
    (forall p, In p l2 -> jlt (dist p) (distance m) = false) /\
    confidence m = Finite c /\ 0 <= c /\ c <= 1 /\
    -0.03 <= pd_modifier (profile m) /\ pd_modifier (profile m) <= 0.06 /\
    (raw_scale scores ->
     exists d,
       distance m = Finite d /\
       (forall p, In p l1 -> exists dp, dist p = Finite dp /\ d < dp) /\
       (forall p, In p l2 -> exists dp, dist p = Finite dp /\ d <= dp)).
Proof.
  cbv zeta.
  destruct (matchLoop_catalog sqrtQ scores) as (l1 & l2 & Eps & Ed & Hl1 & Hl2).
  cbv zeta in Eps, Ed, Hl1, Hl2.
  unfold matchMoneyProfile. cbv zeta. cbn [profile distance confidence].
  set (st := matchLoop sqrtQ scores MONEY_PROFILES
               (hd PrudentPlanner MONEY_PROFILES, PosInfinity)) in *.
  assert (Hin : In (fst st) MONEY_PROFILES)
    by (rewrite Eps; apply in_or_app; right; left; reflexivity).
  assert (Hord : snd st = PosInfinity \/ exists d, snd st = Finite d)
    by (rewrite Ed; apply computeProfileDistance_ordered).
  assert (Hconf : unit_number
                    (jmax (Finite 0)
                       (jmin (Finite 1) (Finite 1 - snd st / Finite 6)%js))).
  { apply (clamp01_unit (Finite 1 - snd st / Finite 6)%js).
    apply jsub_finite_not_NaN. apply jdiv_finite_not_NaN; [| lra].
    destruct Hord as [-> | (d & ->)]; discriminate. }
  destruct Hconf as (c & Hc & Hc0 & Hc1).
  exists l1, l2, c.
  split; [exact Eps |]. split; [exact Ed |]. split; [exact Hord |].
  split; [exact Hl1 |]. split; [exact Hl2 |].
  split; [exact Hc |]. split; [exact Hc0 |]. split; [exact Hc1 |].
  split; [apply MONEY_PROFILES_modifiers; exact Hin |].
  split; [apply MONEY_PROFILES_modifiers; exact Hin |].
  intros Hraw.
  destruct (computeProfileDistance_raw sqrtQ scores (fst st) Hraw Hin) as [d Hd].
  exists d. split; [rewrite Ed; exact Hd |].
  split.
  - intros p Hp.
    assert (Hp' : In p MONEY_PROFILES)
      by (rewrite Eps; apply in_or_app; left; exact Hp).
    destruct (computeProfileDistance_raw sqrtQ scores p Hraw Hp') as [dp Hdp].
    exists dp. split; [exact Hdp |].
    specialize (Hl1 p Hp). rewrite Ed, Hd, Hdp in Hl1. cbn [jlt] in Hl1.
    destruct (Qltb_spec d dp); [assumption | discriminate].
  - intros p Hp.
    assert (Hp' : In p MONEY_PROFILES)
      by (rewrite Eps; apply in_or_app; right; right; exact Hp).
    destruct (computeProfileDistance_raw sqrtQ scores p Hraw Hp') as [dp Hdp].
    exists dp. split; [exact Hdp |].
    specialize (Hl2 p Hp). rewrite Ed, Hd, Hdp in Hl2. cbn [jlt] in Hl2.
    destruct (Qltb_spec dp d); [discriminate | lra].
Qed.

Lemma matchMoneyProfile_first_nearest_witness :
  raw_scale (uniform 3) /\
  exists d, distance (matchMoneyProfile (fun x => x) (uniform 3)) = Finite d.
Proof.
  assert (Hraw : raw_scale (uniform 3)).
  { intros t; destruct t; split; vm_compute; discriminate. }
  split; [exact Hraw |].
  destruct (matchMoneyProfile_first_nearest (fun x => x) (uniform 3))
    as (l1 & l2 & c & _ & _ & _ & _ & _ & _ & _ & _ & _ & _ & Hfin).
  destruct (Hfin Hraw) as (d & Hd & _).
  exists d. exact Hd.
Defined.

Lemma matched_modifier_bounds (sqrtQ : Q -> Q) (scores : OceanScores) :
  -0.03 <= pd_modifier (profile (matchMoneyProfile sqrtQ scores)) /\
  pd_modifier (profile (matchMoneyProfile sqrtQ scores)) <= 0.06.
Proof.
  destruct (matchLoop_catalog sqrtQ scores) as (l1 & l2 & Eps & _).
  cbv zeta in Eps. unfold matchMoneyProfile. cbv zeta. cbn [profile].
  set (st := matchLoop sqrtQ scores MONEY_PROFILES
               (hd PrudentPlanner MONEY_PROFILES, PosInfinity)) in *.
  apply MONEY_PROFILES_modifiers.
  rewrite Eps. apply in_or_app. right. left. reflexivity.
Qed.

Lemma modified_pd_near_raw (s : OceanScores) (modifier : Q) :
  -0.03 <= modifier -> modifier <= 0.06 ->
  let r := calculateFullPD s modifier in
  (0.02 <= pdModified r /\ pdModified r <= 0.35) /\
  pdRaw r - 0.03 <= pdModified r /\ pdModified r <= pdRaw r + 0.06.
Proof.
  intros Hlo Hhi. cbv zeta. unfold calculateFullPD. cbv zeta.
  cbn [pdModified pdRaw].
  pose proof (computePD_bounds s) as [Hp0 Hp1].
  set (pd := computePD s) in *. clearbody pd.
  unfold applyProfileModifier. cbv zeta. unfold PD_MIN, PD_MAX.
  minmax_cases; lra.
Qed.

(* ================================================================== *)
(** * The two scoring handlers, end to end                             *)
(* ================================================================== *)

(** X22.  Phase-1 completion, for every response history: the modified PD
    lies in [0.02, 0.35], at most 0.03 below and 0.06 above the raw PD; the
    decision is the one the rating names (low approved, moderate
    pending_approval, elevated manual_review), and the stored
    recommendation is approve exactly on a low rating. *)
Theorem completePhase1_result (sqrtQ : Q -> Q) (responses : list QuestionResponse) :
  let r := completePhase1 sqrtQ responses in
  (0.02 <= pdModified (p1_pdResult r) /\ pdModified (p1_pdResult r) <= 0.35) /\
  (pdRaw (p1_pdResult r) - 0.03 <= pdModified (p1_pdResult r) /\
   pdModified (p1_pdResult r) <= pdRaw (p1_pdResult r) + 0.06) /\
  decision (p1_loanDecision r) =
    match riskRating (p1_pdResult r) with
    | low => approved
    | moderate => pending_approval
    | elevated => manual_review
    end /\
  (recommendationDecision (decision (p1_loanDecision r)) = Recommendation.approve
   <-> riskRating (p1_pdResult r) = low).
Proof.
  cbv zeta. unfold completePhase1. cbv zeta.
  cbn [p1_pdResult p1_loanDecision].
  set (ts := computeTraitAverages responses).
  pose proof (matched_modifier_bounds sqrtQ ts) as [Hlo Hhi].
  set (md := pd_modifier (profile (matchMoneyProfile sqrtQ ts))) in *.
  clearbody md.
  pose proof (modified_pd_near_raw ts md Hlo Hhi) as Hnear. cbv zeta in Hnear.
  destruct Hnear as [Hrange Hdiff].
  split; [exact Hrange |]. split; [exact Hdiff |].
  assert (Hdec : decision
            (determineLoanDecision (pdModified (calculateFullPD ts md))
               (riskRating (calculateFullPD ts md)) None) =
          match riskRating (calculateFullPD ts md) with
          | low => approved
          | moderate => pending_approval
          | elevated => manual_review
          end).
  { unfold calculateFullPD. cbv zeta. cbn [pdModified riskRating].
    set (pdm := applyProfileModifier (computePD ts) md). clearbody pdm.
    unfold determineLoanDecision, getRiskRating,
      LOAN_THRESHOLDS_consistency_review_threshold,
      LOAN_THRESHOLDS_auto_approve_pd, LOAN_THRESHOLDS_manual_review_pd,
      RISK_THRESHOLDS_low, RISK_THRESHOLDS_moderate.
    destruct (Qgtb_spec 0 0.40) as [Hgt | _]; [lra |].
    destruct (Qltb pdm 0.08); [reflexivity |].
    destruct (Qltb pdm 0.18); reflexivity. }
  split; [exact Hdec |].
  rewrite Hdec.
  destruct (riskRating (calculateFullPD ts md));
    cbn [recommendationDecision]; split; intros H;
    try reflexivity; discriminate H.
Qed.

(** X23.  The blended-score handler, for phase-2 scores in [0,1]: the
    blended vector is on the raw scale and the modified PD lies in
    [0.02, 0.35]; the final decision is approved only when the consistency
    index does not exceed 0.40 and the rating is low, then with the low-risk
    amount; and an index above 0.40 always ends in manual review, shown to
    the applicant as pending_approval. *)
Theorem completePhase2_result
    (sqrtQ : Q -> Q) (phase1Scores : OceanScores)
    (phase2Scores : NormalizedOceanScores) :
  (forall t, 0 <= get phase2Scores t /\ get phase2Scores t <= 1) ->
  let r := completePhase2 sqrtQ phase1Scores phase2Scores in
  raw_scale (p2_blendedScores r) /\
  (0.02 <= pdModified (p2_pdResult r) /\ pdModified (p2_pdResult r) <= 0.35) /\
  (decision (p2_loanDecision r) = approved ->
   overall (p2_consistency r) <= 0.40 /\
   riskRating (p2_pdResult r) = low /\
   maxAmount (p2_loanDecision r) = 50000) /\
  (0.40 < overall (p2_consistency r) ->
   decision (p2_loanDecision r) = manual_review /\
   userFacingDecision (p2_loanDecision r) = pending_approval).
Proof.
  intros Hp2. cbv zeta. unfold completePhase2. cbv zeta.
  cbn [p2_blendedScores p2_pdResult p2_loanDecision p2_consistency].
  set (bl := blendScores phase1Scores phase2Scores).
  set (ci := computeConsistencyIndex phase1Scores phase2Scores).
  pose proof (matched_modifier_bounds sqrtQ bl) as [Hlo Hhi].
  set (md := pd_modifier (profile (matchMoneyProfile sqrtQ bl))) in *.
  clearbody md.
  pose proof (modified_pd_near_raw bl md Hlo Hhi) as Hnear. cbv zeta in Hnear.
  destruct Hnear as [Hrange _].
  split.
  { intros t. destruct (Hp2 t) as [H0 H1]. apply blend_component_raw; assumption. }
  split; [exact Hrange |].
  unfold calculateFullPD. cbv zeta. cbn [pdModified riskRating].
  set (pdm := applyProfileModifier (computePD bl) md). clearbody pdm.
  unfold determineLoanDecision, getRiskRating,
    LOAN_THRESHOLDS_consistency_review_threshold,
    LOAN_THRESHOLDS_auto_approve_pd, LOAN_THRESHOLDS_manual_review_pd,
    RISK_THRESHOLDS_low, RISK_THRESHOLDS_moderate.
  destruct (Qgtb_spec (overall ci) 0.40) as [Hgt | Hle].
  - split; [intros H; discriminate H |].
    intros _. split; reflexivity.
  - destruct (Qltb pdm 0.08).
    + split; [intros _; repeat split; lra | intros H; exfalso; lra].
    + destruct (Qltb pdm 0.18);
        (split; [intros H; discriminate H | intros H; exfalso; lra]).
Qed.

Lemma completePhase2_result_witness :
  (forall t, 0 <= get (uniform 0.5) t /\ get (uniform 0.5) t <= 1) /\
  raw_scale (p2_blendedScores (completePhase2 (fun x => x) scenarioB (uniform 0.5))).
Proof.
  assert (H : forall t, 0 <= get (uniform 0.5) t /\ get (uniform 0.5) t <= 1)
    by (intros t; destruct t; vm_compute; split; discriminate).
  split; [exact H |].
  exact (proj1 (completePhase2_result (fun x => x) scenarioB (uniform 0.5) H)).
Defined.

(* ================================================================== *)
(** * claude-prompt.ts: choosing among the candidate questions         *)
(* ================================================================== *)

Section QuestionSelection.

Variable traitVariances : TraitVariances.
Variable previousTypes : list QuestionType.

Let scoreOf := candidateScore traitVariances previousTypes.

Let better (c : Candidate) (bestScore : option Q) : bool :=
  match bestScore with
  | None => true
  | Some b => Qgtb (scoreOf c) b
  end.

(** The loop either keeps the index it was given, when no candidate beats
    the score it was given, or returns the position of the first candidate
    that has the highest score. *)
Lemma selectOptimalLoop_first_best (candidates : list Candidate) :
  forall (i bestIndex : nat) (bestScore : option Q),
    (selectOptimalLoop traitVariances previousTypes candidates i bestIndex bestScore
     = bestIndex /\
     forall c, In c candidates -> better c bestScore = false) \/
    (exists k c,
        selectOptimalLoop traitVariances previousTypes candidates i bestIndex bestScore
        = (i + k)%nat /\
        nth_error candidates k = Some c /\
        better c bestScore = true /\
        forall j c', nth_error candidates j = Some c' ->
                     scoreOf c' <= scoreOf c /\
                     ((j < k)%nat -> scoreOf c' < scoreOf c)).
Proof.
  induction candidates as [| c0 rest IH]; intros i bestIndex bestScore.
  - left. split; [reflexivity | intros ? []].
  - cbn [selectOptimalLoop]. cbv zeta. fold scoreOf.
    change (match bestScore with
            | Some b => Qgtb (scoreOf c0) b
            | None => true
            end) with (better c0 bestScore).
    destruct (better c0 bestScore) eqn:Hb.
    + right.
      destruct (IH (S i) i (Some (scoreOf c0)))
        as [[E Hno] | (k & c & E & Hk & Hbc & Hall)].
      * exists 0%nat, c0. rewrite E. split; [lia |].
        split; [reflexivity |]. split; [exact Hb |].
        intros j c' Hj. destruct j as [| j'].
        -- cbn in Hj. injection Hj as <-. split; [lra | lia].
        -- cbn in Hj. apply nth_error_In in Hj. specialize (Hno c' Hj).
           cbn in Hno. destruct (Qgtb_spec (scoreOf c') (scoreOf c0));
             [discriminate |].
           split; [lra | lia].
      * cbn in Hbc.
        destruct (Qgtb_spec (scoreOf c) (scoreOf c0)) as [Hgt | ?];
          [| discriminate].
        exists (S k), c. rewrite E. split; [lia |].
        split; [exact Hk |]. split.
        { destruct bestScore as [b |]; [| reflexivity].
          cbn in Hb |- *.
          destruct (Qgtb_spec (scoreOf c0) b) as [Hgt0 | ?]; [| discriminate].
          destruct (Qgtb_spec (scoreOf c) b) as [? | Hn]; [reflexivity | lra]. }
        intros j c' Hj. destruct j as [| j'].
        -- cbn in Hj. injection Hj as <-. split; [lra | intros _; exact Hgt].
        -- cbn in Hj. destruct (Hall j' c' Hj) as [Hle Hlt].
           split; [exact Hle | intros Hjk; apply Hlt; lia].
    + destruct (IH (S i) bestIndex bestScore)
        as [[E Hno] | (k & c & E & Hk & Hbc & Hall)].
      * left. split; [exact E |].
        intros c [<- | Hc]; [exact Hb | apply Hno; exact Hc].
      * right. exists (S k), c. rewrite E. split; [lia |].
        split; [exact Hk |]. split; [exact Hbc |].
        destruct bestScore as [b |]; [| discriminate Hb].
        cbn in Hb, Hbc.
        destruct (Qgtb_spec (scoreOf c0) b) as [? | Hn0]; [discriminate |].
        destruct (Qgtb_spec (scoreOf c) b) as [Hgt | ?]; [| discriminate].
        intros j c' Hj. destruct j as [| j'].
        -- cbn in Hj. injection Hj as <-. split; [lra | intros _; lra].
        -- cbn in Hj. destruct (Hall j' c' Hj) as [Hle Hlt].
           split; [exact Hle | intros Hjk; apply Hlt; lia].
Qed.

End QuestionSelection.

(** X24.  On an empty batch the selected index is 0.  On a non-empty batch
    it is the position of a candidate: the first one with the highest
    score, where the score is the variance of the candidate's trait plus 0.2
    when its question type was not used before. *)
Theorem selectOptimalQuestion_first_best
    (candidates : list Candidate) (traitVariances : TraitVariances)
    (previousTypes : list QuestionType) :
  selectOptimalQuestion [] traitVariances previousTypes = 0%nat /\
  (candidates <> [] ->
   exists c,
     nth_error candidates
       (selectOptimalQuestion candidates traitVariances previousTypes) = Some c /\
     forall j c', nth_error candidates j = Some c' ->
       candidateScore traitVariances previousTypes c'
         <= candidateScore traitVariances previousTypes c /\
       ((j < selectOptimalQuestion candidates traitVariances previousTypes)%nat ->
        candidateScore traitVariances previousTypes c'
          < candidateScore traitVariances previousTypes c)).
Proof.
  split; [reflexivity |].
  intros Hne. unfold selectOptimalQuestion.
  destruct (selectOptimalLoop_first_best traitVariances previousTypes
              candidates 0 0 None)
    as [[_ Hno] | (k & c & E & Hk & _ & Hall)].
  - destruct candidates as [| c0 rest]; [contradiction |].
    specialize (Hno c0 (or_introl eq_refl)). discriminate Hno.
  - rewrite E. cbn [Nat.add]. exists c. split; [exact Hk | exact Hall].
Qed.

Lemma selectOptimalQuestion_first_best_witness :
  let cands := [ {| cand_trait := Trait.O; question_type := grid |};
                 {| cand_trait := Trait.C; question_type := bars |} ] in
  cands <> [] /\
  exists c, nth_error cands
              (selectOptimalQuestion cands scenarioA [grid]) = Some c.
Proof.
  cbv zeta.
  match goal with
  | |- ?l <> [] /\ _ => assert (H : l <> []) by discriminate; split; [exact H |];
      destruct (proj2 (selectOptimalQuestion_first_best l scenarioA [grid]) H)
        as (c & Hc & _);
      exists c; exact Hc
  end.
Defined.

(** X25.  The first question of a session: with the initial variances (all
    1.0) and no question type used yet, every candidate scores the same and
    index 0 is selected, whatever the batch. *)
Theorem first_question_is_first_candidate (candidates : list Candidate) :
  selectOptimalQuestion candidates initialVariances [] = 0%nat.
Proof.
  destruct candidates as [| c0 rest]; [reflexivity |].
  unfold selectOptimalQuestion.
  assert (Hscore : forall c, candidateScore initialVariances [] c == 1.2).
  { intros c. unfold candidateScore, includes. cbn [existsb negb].
    destruct (cand_trait c); reflexivity. }
  destruct (selectOptimalLoop_first_best initialVariances []
              (c0 :: rest) 0 0 None)
    as [[E _] | (k & c & E & Hk & _ & Hall)]; [exact E |].
  rewrite E. destruct k as [| k']; [reflexivity | exfalso].
  destruct (Hall 0%nat c0 eq_refl) as [_ Hlt].
  specialize (Hlt ltac:(lia)).
  rewrite (Hscore c0), (Hscore c) in Hlt. lra.
Qed.

(* ================================================================== *)
(** * ReactionQuestion.ts: the reaction-time adjustment                *)
(* ================================================================== *)

(** X26.  The reaction-time adjustment keeps a raw-scale score on the raw
    scale, raises it by at most 0.5 and lowers it by at most 0.3, and leaves
    it alone for a reaction time between 500 and 3000 ms. *)
Theorem adjustedScore_bounds (optionScore reactionTime : Q) :
  1 <= optionScore -> optionScore <= 5 ->
  (1 <= adjustedScore optionScore reactionTime /\
   adjustedScore optionScore reactionTime <= 5) /\
  (optionScore - 0.3 <= adjustedScore optionScore reactionTime /\
   adjustedScore optionScore reactionTime <= optionScore + 0.5) /\
  (500 <= reactionTime -> reactionTime <= 3000 ->
   adjustedScore optionScore reactionTime = optionScore).
Proof.
  intros Hlo Hhi. unfold adjustedScore.
  destruct (Qltb_spec reactionTime 500) as [Hfast | Hnf];
    [| destruct (Qgtb_spec reactionTime 3000) as [Hslow | Hns]].
  - split; [| split]; [minmax_cases; lra | minmax_cases; lra |].
    intros H. exfalso. lra.
  - split; [| split]; [minmax_cases; lra | minmax_cases; lra |].
    intros _ H. exfalso. lra.
  - split; [| split]; [lra | lra | intros _ _; reflexivity].
Qed.

Lemma adjustedScore_bounds_witness :
  1 <= 4.8 /\ 4.8 <= 5 /\ adjustedScore 4.8 200 <= 5.
Proof.
  assert (H1 : 1 <= 4.8) by lra. assert (H2 : 4.8 <= 5) by lra.
  split; [exact H1 | split; [exact H2 |]].
  exact (proj2 (proj1 (adjustedScore_bounds 4.8 200 H1 H2))).
Defined.

(* ================================================================== *)
(** * ocean.ts: the order of the responses                             *)
(* ================================================================== *)

Lemma sum_Permutation (xs ys : list Q) : Permutation xs ys -> sum xs == sum ys.
Proof.
  induction 1 as [| x xs ys _ IH | x y xs | xs ys zs _ IH1 _ IH2].
  - reflexivity.
  - rewrite !sum_cons, IH. reflexivity.
  - rewrite !sum_cons. ring.
  - rewrite IH1. exact IH2.
Qed.

Lemma sum_map_ext (f g : Q -> Q) (xs : list Q) :
  (forall x, f x == g x) -> sum (map f xs) == sum (map g xs).
Proof.
  intros Hfg. induction xs as [| x xs IH]; [reflexivity |].
  cbn [map]. rewrite !sum_cons, IH, (Hfg x). reflexivity.
Qed.

Lemma len_Permutation {X : Type} (xs ys : list X) :
  Permutation xs ys -> len xs = len ys.
Proof. intros H. unfold len. rewrite (Permutation_length H). reflexivity. Qed.

Lemma average_Permutation (xs ys : list Q) (d : Q) :
  Permutation xs ys -> average xs d == average ys d.
Proof.
  intros H. unfold average.
  destruct xs as [| x xs'].
  - apply Permutation_nil in H. subst ys. reflexivity.
  - destruct ys as [| y ys'].
    + apply Permutation_sym, Permutation_nil in H. discriminate H.
    + rewrite (sum_Permutation _ _ H), (len_Permutation _ _ H). reflexivity.
Qed.

Lemma variance_Permutation (xs ys : list Q) :
  Permutation xs ys -> variance xs == variance ys.
Proof.
  intros H. unfold variance. rewrite (len_Permutation _ _ H).
  destruct (Qltb (len ys) 2); [reflexivity |]. cbv zeta.
  assert (Hmean : sum xs / len ys == sum ys / len ys)
    by (rewrite (sum_Permutation _ _ H); reflexivity).
  set (mx := sum xs / len ys) in *. set (my := sum ys / len ys) in *.
  assert (E : sum (map (fun v => (v - mx) ^ 2) xs)
              == sum (map (fun v => (v - my) ^ 2) ys)).
  { rewrite (sum_Permutation _ _
               (Permutation_map (fun v => (v - mx) ^ 2) H)).
    apply sum_map_ext. intros v.
    change ((v - mx) ^ 2) with ((v - mx) * (v - mx)).
    change ((v - my) ^ 2) with ((v - my) * (v - my)).
    rewrite Hmean. reflexivity. }
  rewrite E. reflexivity.
Qed.

Lemma traitScores_Permutation (rs rs' : list QuestionResponse) (t : OceanTrait) :
  Permutation rs rs' -> Permutation (traitScores rs t) (traitScores rs' t).
Proof.
  intros H. unfold traitScores. apply Permutation_map.
  induction H as [| r l l' _ IH | r r' l | l l' l'' _ IH1 _ IH2].
  - constructor.
  - cbn [filter]. destruct (match trait r, t with
                            | Trait.O, Trait.O | Trait.C, Trait.C
                            | Trait.E, Trait.E | Trait.A, Trait.A
                            | Trait.N, Trait.N => true
                            | _, _ => false
                            end); [constructor |]; exact IH.
  - cbn [filter].
    destruct (match trait r, t with
              | Trait.O, Trait.O | Trait.C, Trait.C
              | Trait.E, Trait.E | Trait.A, Trait.A
              | Trait.N, Trait.N => true
              | _, _ => false
              end);
      destruct (match trait r', t with
                | Trait.O, Trait.O | Trait.C, Trait.C
                | Trait.E, Trait.E | Trait.A, Trait.A
                | Trait.N, Trait.N => true
                | _, _ => false
                end);
      try apply perm_swap; apply Permutation_refl.
  - exact (Permutation_trans IH1 IH2).
Qed.

(** X27.  In exact arithmetic the order of the responses does not matter:
    two histories that are permutations of each other have the same trait
    averages and the same trait variances. *)
Theorem trait_statistics_order_independent (rs rs' : list QuestionResponse) :
  Permutation rs rs' ->
  scores_eq (computeTraitAverages rs) (computeTraitAverages rs') /\
  scores_eq (computeTraitVariances rs) (computeTraitVariances rs').
Proof.
  intros H. split; intros t.
  - unfold computeTraitAverages. rewrite !get_build.
    apply average_Permutation, traitScores_Permutation, H.
  - unfold computeTraitVariances. rewrite !get_build.
    apply variance_Permutation, traitScores_Permutation, H.
Qed.

Lemma trait_statistics_order_independent_witness :
  let a := {| trait := Trait.C; score := 4.5 |} in
  let b := {| trait := Trait.C; score := 2 |} in
  Permutation [a; b] [b; a] /\
  scores_eq (computeTraitAverages [a; b]) (computeTraitAverages [b; a]).
Proof.
  cbv zeta.
  match goal with
  | |- Permutation ?l ?l' /\ _ =>
      assert (H : Permutation l l') by apply perm_swap;
      split; [exact H | exact (proj1 (trait_statistics_order_independent l l' H))]
  end.
Defined.
